(** * Bhagavad-Gita retrieval server: a shallow embedding of
      [server.js] and [generateEmbeddings.js]

    The development follows the two source files.  JavaScript strings are
    sequences of UTF-16 code units, JavaScript values are a small untyped
    universe (undefined, null, booleans, numbers, strings, arrays, objects),
    the session cache is a finite map, and the [/chat] handler is written in a
    small state-and-exception monad that records the collaborator calls it
    makes.  What lives in the engine or in an npm package and not in the
    repository (the Unicode property tables of the regular expressions,
    [Number::toString], the [cosine-similarity] package, the embedding and the
    generation services, the session cache on a key that is no string) is a
    parameter of the definitions that use it. *)

From Stdlib Require Import ZArith QArith Lqa List String Ascii Bool Lia Permutation Sorted.
From stdpp Require Import gmap.

Local Open Scope Z_scope.
Import ListNotations.
#[local] Set Warnings "-register-all".

(** ** Strings *)

(** A JavaScript string: its UTF-16 code units, each in [0, 65535]. *)
Definition codeunit := Z.
Definition jsstring := list codeunit.

(** The code units of an ASCII literal. *)
Fixpoint jstr (s : string) : jsstring :=
  match s with
  | EmptyString => []
  | String a rest => Z.of_nat (nat_of_ascii a) :: jstr rest
  end.

Definition TAB : codeunit := 9.
Definition LF : codeunit := 10.
Definition CR : codeunit := 13.
Definition SP : codeunit := 32.
Definition QUOTE : codeunit := 34.

Definition strlen (s : jsstring) : Z := Z.of_nat (length s).

(** [String.prototype.substring(start, end)]: both indices are clamped to
    [0, length] and swapped when [start > end]. *)
Definition clampIndex (len k : Z) : Z := Z.min (Z.max k 0) len.

Definition substring (s : jsstring) (start finish : Z) : jsstring :=
  let a := clampIndex (strlen s) start in
  let b := clampIndex (strlen s) finish in
  let lo := Z.min a b in
  let hi := Z.max a b in
  firstn (Z.to_nat (hi - lo)) (skipn (Z.to_nat lo) s).

(** ** Text segmenter: [chunkText] (server.js 49-55, generateEmbeddings.js 18-24)

<<
  const chunks = [];
  for (let i = 0; i < text.length; i += chunkSize) {
      chunks.push(text.substring(i, i + chunkSize));
  }
  return chunks;
>>
    The loop has no bound of its own: [fuel] counts the evaluations of the
    loop test the model may perform, and [None] says the fuel ran out before
    the test failed.  The array takes every [push] here, as it does while the
    chunks fit in it; [chunkLoopWithin] below is the loop with the bound of
    the engine on the array. *)
Fixpoint chunkLoop (fuel : nat) (text : jsstring) (chunkSize i : Z)
    (chunks : list jsstring) : option (list jsstring) :=
  match fuel with
  | O => None
  | S fuel' =>
      if i <? strlen text
      then chunkLoop fuel' text chunkSize (i + chunkSize)
             (chunks ++ [substring text i (i + chunkSize)])
      else Some chunks
  end.

Definition chunkText (fuel : nat) (text : jsstring) (chunkSize : Z)
    : option (list jsstring) :=
  chunkLoop fuel text chunkSize 0 [].

(** The default of the [chunkSize] parameter. *)
Definition defaultChunkSize : Z := 1500.

(** How a call of the segmenter ends in an engine: it returns its array, or
    a [push] fails and the call returns nothing ([LoopRunning]: the fuel of
    the model ran out first). *)
Inductive Segmented : Type :=
  | Returned (chunks : list jsstring)
  | PushFailed
  | LoopRunning.

(** The same loop with the bound of the engine on the array: [chunks] takes
    [capacity] elements and no more (the array length limit of the language,
    or what the heap allows), and the [push] that finds it full fails, by a
    [RangeError] or by the abort of the process. *)
Fixpoint chunkLoopWithin (capacity fuel : nat) (text : jsstring) (chunkSize i : Z)
    (chunks : list jsstring) : Segmented :=
  match fuel with
  | O => LoopRunning
  | S fuel' =>
      if i <? strlen text
      then if (length chunks <? capacity)%nat
           then chunkLoopWithin capacity fuel' text chunkSize (i + chunkSize)
                  (chunks ++ [substring text i (i + chunkSize)])
           else PushFailed
      else Returned chunks
  end.

Definition chunkTextWithin (capacity fuel : nat) (text : jsstring) (chunkSize : Z)
    : Segmented :=
  chunkLoopWithin capacity fuel text chunkSize 0 [].

(** ** JavaScript values *)

(** A JavaScript number: a finite value (taken exactly), an infinity, or NaN. *)
Inductive number : Type :=
  | NFin (q : Q)
  | NInf (negative : bool)
  | NNaN.

(** The values the program handles: what [JSON.parse] produces and what the
    handler builds from object and array literals, plus [undefined].  An
    object is the list of its own properties, each key once. *)
Inductive value : Type :=
  | VUndefined
  | VNull
  | VBool (b : bool)
  | VNum (n : number)
  | VStr (s : jsstring)
  | VArr (elems : list value)
  | VObj (props : list (jsstring * value)).

Definition jsstring_eqb (a b : jsstring) : bool := bool_decide (a = b).

(** ToBoolean. *)
Definition truthy (v : value) : bool :=
  match v with
  | VUndefined | VNull => false
  | VBool b => b
  | VNum (NFin q) => negb (Qeq_bool q 0)
  | VNum (NInf _) => true
  | VNum NNaN => false
  | VStr s => negb (jsstring_eqb s [])
  | VArr _ | VObj _ => true
  end.

Fixpoint lookupProp (props : list (jsstring * value)) (key : jsstring) : value :=
  match props with
  | [] => VUndefined
  | (k, v) :: rest => if jsstring_eqb k key then v else lookupProp rest key
  end.

(** A canonical array index: ["0"], or decimal digits with no leading zero. *)
Fixpoint digitsValue (acc : Z) (s : jsstring) : option Z :=
  match s with
  | [] => Some acc
  | c :: rest =>
      if (48 <=? c) && (c <=? 57) then digitsValue (10 * acc + (c - 48)) rest
      else None
  end.

Definition arrayIndex (key : jsstring) : option nat :=
  match key with
  | [] => None
  | [c] => if (48 <=? c) && (c <=? 57) then Some (Z.to_nat (c - 48)) else None
  | c :: rest =>
      if (49 <=? c) && (c <=? 57)
      then option_map Z.to_nat (digitsValue (c - 48) rest)
      else None
  end.

(** Property read [v.key] on a value that is neither [undefined] nor [null].
    Data properties only: own properties of objects, [length] and the indexed
    elements of arrays and strings.  A primitive has none, and the methods
    inherited from the prototypes are not data the program reads. *)
Definition getProp (v : value) (key : jsstring) : value :=
  match v with
  | VObj props => lookupProp props key
  | VArr elems =>
      if jsstring_eqb key (jstr "length") then VNum (NFin (inject_Z (Z.of_nat (length elems))))
      else match arrayIndex key with
           | Some i => nth i elems VUndefined
           | None => VUndefined
           end
  | VStr s =>
      if jsstring_eqb key (jstr "length") then VNum (NFin (inject_Z (strlen s)))
      else match arrayIndex key with
           | Some i => match nth_error s i with
                       | Some c => VStr [c]
                       | None => VUndefined
                       end
           | None => VUndefined
           end
  | _ => VUndefined
  end.

(** Optional chaining [v?.key]. *)
Definition optChain (v : value) (key : jsstring) : value :=
  match v with
  | VUndefined | VNull => VUndefined
  | _ => getProp v key
  end.

(** Nullish coalescing [v ?? d]. *)
Definition nullish (v d : value) : value :=
  match v with
  | VUndefined | VNull => d
  | _ => v
  end.

(** Strict equality [v === n] against a number. *)
Definition strictEqNum (v : value) (n : Q) : bool :=
  match v with
  | VNum (NFin q) => Qeq_bool q n
  | _ => false
  end.

(** [Array.prototype.slice(start)] and [slice(start, end)]: a negative index
    counts from the end, and both are clamped to [0, length]. *)
Definition relativeIndex (len k : Z) : Z :=
  if k <? 0 then Z.max (len + k) 0 else Z.min k len.

Definition arraySlice {A : Type} (l : list A) (start finish : Z) : list A :=
  let len := Z.of_nat (length l) in
  let a := relativeIndex len start in
  let b := relativeIndex len finish in
  firstn (Z.to_nat (b - a)) (skipn (Z.to_nat a) l).

Definition arraySliceFrom {A : Type} (l : list A) (start : Z) : list A :=
  skipn (Z.to_nat (relativeIndex (Z.of_nat (length l)) start)) l.

Section ToString.
(** [Number::toString], the engine's printing of a number. *)
Variable numberToString : number -> jsstring.

(** ToString.  An array prints its elements separated by commas, with
    [undefined] and [null] elements printed as nothing. *)
Fixpoint toStr (v : value) : jsstring :=
  match v with
  | VUndefined => jstr "undefined"
  | VNull => jstr "null"
  | VBool true => jstr "true"
  | VBool false => jstr "false"
  | VNum n => numberToString n
  | VStr s => s
  | VArr elems =>
      (fix commaJoin (l : list value) : jsstring :=
         match l with
         | [] => []
         | x :: rest =>
             let sx := match x with
                       | VUndefined | VNull => []
                       | _ => toStr x
                       end in
             match rest with
             | [] => sx
             | _ :: _ => sx ++ jstr "," ++ commaJoin rest
             end
         end) elems
  | VObj _ => jstr "[object Object]"
  end.

(** The text [Array.prototype.join] uses for one element. *)
Definition elemStr (v : value) : jsstring :=
  match v with
  | VUndefined | VNull => []
  | _ => toStr v
  end.

(** [Array.prototype.join(sep)]. *)
Fixpoint join (sep : jsstring) (l : list value) : jsstring :=
  match l with
  | [] => []
  | [x] => elemStr x
  | x :: rest => elemStr x ++ sep ++ join sep rest
  end.
End ToString.

(** ToString throws on an object that has an own [toString] property: in a
    value parsed from JSON that property is no function, and the [valueOf]
    the object then falls back on returns the object itself.  An array prints
    through its elements. *)
Definition hasOwn (props : list (jsstring * value)) (key : jsstring) : bool :=
  existsb (fun kv => jsstring_eqb (fst kv) key) props.

Fixpoint printable (v : value) : bool :=
  match v with
  | VArr elems =>
      (fix each (l : list value) : bool :=
         match l with
         | [] => true
         | x :: rest => printable x && each rest
         end) elems
  | VObj props => negb (hasOwn props (jstr "toString"))
  | _ => true
  end.

(** [join] on an array of strings. *)
Fixpoint joinStrings (sep : jsstring) (l : list jsstring) : jsstring :=
  match l with
  | [] => []
  | [x] => x
  | x :: rest => x ++ sep ++ joinStrings sep rest
  end.

(** ** Text sanitizer: [sanitizeText] (server.js 63-69, generateEmbeddings.js 26-32)

<<
  return text
  .replace(/[^\p{L}\p{N}\p{P}\p{Zs}\n\r\t]/gu, ' ')
  .replace(/[ \t]+/g, ' ')
  .replace(/\n{3,}/g, '\n\n')
  .trim();
>>
*)

Definition isHighSurrogate (c : codeunit) : bool := (0xD800 <=? c) && (c <=? 0xDBFF).
Definition isLowSurrogate (c : codeunit) : bool := (0xDC00 <=? c) && (c <=? 0xDFFF).
Definition isSurrogate (c : Z) : bool := (0xD800 <=? c) && (c <=? 0xDFFF).

(** The code point of a surrogate pair. *)
Definition codePoint (hi lo : codeunit) : Z :=
  0x10000 + (hi - 0xD800) * 0x400 + (lo - 0xDC00).

Section Sanitizer.
(** The engine's Unicode table: whether a code point has General_Category
    Letter, Number, Punctuation or Space_Separator. *)
Variable uniLNPZs : Z -> bool.

(** The characters the negated class leaves alone. *)
Definition keptByClass (cp : Z) : bool :=
  uniLNPZs cp || (cp =? LF) || (cp =? CR) || (cp =? TAB).

(** First [replace]: a single-character class with the [g] and [u] flags.
    The text is read code point by code point (a high surrogate followed by
    a low one is one character, any other code unit is a character of its
    own), and every character outside the class becomes one space. *)
Fixpoint replaceDisallowed (s : jsstring) : jsstring :=
  match s with
  | [] => []
  | c :: rest =>
      if isHighSurrogate c then
        match rest with
        | lo :: rest' =>
            if isLowSurrogate lo then
              if keptByClass (codePoint c lo)
              then c :: lo :: replaceDisallowed rest'
              else SP :: replaceDisallowed rest'
            else
              (if keptByClass c then [c] else [SP]) ++ replaceDisallowed rest
        | [] => if keptByClass c then [c] else [SP]
        end
      else
        (if keptByClass c then [c] else [SP]) ++ replaceDisallowed rest
  end.
End Sanitizer.

Definition isBlank (c : codeunit) : bool := (c =? SP) || (c =? TAB).

(** Second [replace], [/[ \t]+/g]: the scanner emits the replacement space at
    the first unit of a run of spaces and tabs and skips the rest of the run.
    [inRun] says that the previous unit belongs to the run being replaced. *)
Fixpoint collapseBlanks (inRun : bool) (s : jsstring) : jsstring :=
  match s with
  | [] => []
  | c :: rest =>
      if isBlank c
      then (if inRun then [] else [SP]) ++ collapseBlanks true rest
      else c :: collapseBlanks false rest
  end.

(** Third [replace], [/\n{3,}/g] by two newlines: a run of one or two newlines
    does not match and stays, a longer run keeps its first two.  [seen] counts
    the newlines of the current run already passed, up to two. *)
Fixpoint collapseNewlines (seen : nat) (s : jsstring) : jsstring :=
  match s with
  | [] => []
  | c :: rest =>
      if c =? LF
      then match seen with
           | S (S _) => collapseNewlines seen rest
           | _ => c :: collapseNewlines (S seen) rest
           end
      else c :: collapseNewlines O rest
  end.

(** White space and line terminators, as [String.prototype.trim] reads them:
    TAB, LF, VT, FF, CR, the Space_Separator characters, LS, PS and the byte
    order mark. *)
Definition isTrimSpace (c : codeunit) : bool :=
  ((9 <=? c) && (c <=? 13)) || (c =? 0x20) || (c =? 0xA0) || (c =? 0x1680)
  || ((0x2000 <=? c) && (c <=? 0x200A)) || (c =? 0x2028) || (c =? 0x2029)
  || (c =? 0x202F) || (c =? 0x205F) || (c =? 0x3000) || (c =? 0xFEFF).

Fixpoint trimStart (s : jsstring) : jsstring :=
  match s with
  | [] => []
  | c :: rest => if isTrimSpace c then trimStart rest else s
  end.

(** The string without its longest suffix of white space. *)
Fixpoint trimEnd (s : jsstring) : jsstring :=
  match s with
  | [] => []
  | c :: rest =>
      match trimEnd rest with
      | [] => if isTrimSpace c then [] else [c]
      | kept => c :: kept
      end
  end.

Definition trim (s : jsstring) : jsstring := trimEnd (trimStart s).

Definition sanitizeText (uniLNPZs : Z -> bool) (text : jsstring) : jsstring :=
  trim (collapseNewlines O (collapseBlanks false (replaceDisallowed uniLNPZs text))).



(** The Unicode table on Basic Latin (U+0000 to U+007F): letters, digits, the
    punctuation marks and the space.  The symbols [$ + < = > ^ ` | ~] and the
    control characters are in none of the four categories.  Code points past
    U+007F are not covered by this table; it serves the ASCII examples. *)
Definition basicLatin (cp : Z) : bool :=
  ((32 <=? cp) && (cp <=? 35)) || ((37 <=? cp) && (cp <=? 42))
  || ((44 <=? cp) && (cp <=? 59)) || ((63 <=? cp) && (cp <=? 93))
  || (cp =? 95) || ((97 <=? cp) && (cp <=? 123)) || (cp =? 125).

(** ** Corpus vector store and its load path (server.js 224-248) *)

(** A chunk of the store: [{ text, embedding }]. *)
Record Chunk := { text : jsstring; embedding : list Q }.

(** The typed reading of a loaded JSON value, where it is a sequence of
    [{text, embedding}] records with a string and an array of finite numbers. *)
Definition numberOfValue (v : value) : option Q :=
  match v with
  | VNum (NFin q) => Some q
  | _ => None
  end.

Fixpoint allSome {A : Type} (l : list (option A)) : option (list A) :=
  match l with
  | [] => Some []
  | Some a :: rest => option_map (cons a) (allSome rest)
  | None :: _ => None
  end.

Definition chunkOfValue (v : value) : option Chunk :=
  match v with
  | VObj props =>
      match lookupProp props (jstr "text"), lookupProp props (jstr "embedding") with
      | VStr t, VArr nums =>
          option_map (fun e => {| text := t; embedding := e |})
                     (allSome (map numberOfValue nums))
      | _, _ => None
      end
  | _ => None
  end.

Definition storeOfValue (v : value) : option (list Chunk) :=
  match v with
  | VArr elems => allSome (map chunkOfValue elems)
  | _ => None
  end.

(** A non-empty sequence of well-formed records. *)
Definition wellFormedStore (v : value) : bool :=
  match storeOfValue v with
  | Some (_ :: _) => true
  | _ => false
  end.

(** What [fs.readFile] followed by [JSON.parse] came to. *)
Inductive FileRead : Type :=
  | ReadFailed
  | ParseFailed
  | Parsed (v : value).

Inductive Startup : Type :=
  | Listening (pdfChunksWithEmbeddings : value)
  | ProcessExit (code : Z).

(** [loadEmbeddings]: any exception of the [try] block, the one thrown by the
    emptiness test included, reaches [process.exit(1)]. *)
Definition loadEmbeddings (file : FileRead) : Startup :=
  match file with
  | ReadFailed | ParseFailed => ProcessExit 1
  | Parsed v =>
      if negb (truthy v) || strictEqNum (getProp v (jstr "length")) 0
      then ProcessExit 1
      else Listening v
  end.


(** ** Sorting *)

(** [Array.prototype.sort(comparefn)].  The algorithm is the engine's; the
    language requires the result to be ordered by a consistent [comparefn] and
    stable.  The model is the stable insertion sort: an element goes before
    the first one that [comparefn] does not put in front of it. *)
Section Sort.
Context {A : Type} (comparefn : A -> A -> Q).

Fixpoint insertSorted (x : A) (l : list A) : list A :=
  match l with
  | [] => [x]
  | y :: rest =>
      if Qle_bool (comparefn x y) 0 then x :: l else y :: insertSorted x rest
  end.

Fixpoint arraySort (l : list A) : list A :=
  match l with
  | [] => []
  | x :: rest => insertSorted x (arraySort rest)
  end.
End Sort.

(** ** Collaborators and the request monad *)

Inductive TaskType : Type := RETRIEVAL_QUERY | RETRIEVAL_DOCUMENT.

Record GenerationConfig := { maxOutputTokens : Z; temperature : Q; topP : Q }.

(** What [chat.sendMessage] came to: a rejected promise (or a [text()] that
    throws), a result with no text, or a result with its text.  The service
    comes with the history array as the call left it: [model.startChat] is
    given the handler's array itself, and the chat session may push onto
    it. *)
Inductive Generation : Type :=
  | GenRejected
  | GenNoText
  | GenText (s : jsstring).

(** The calls a request makes to the embedding and generation services. *)
Inductive Call : Type :=
  | CallEmbed (content : jsstring) (taskType : TaskType)
  | CallGenerate (history : list value) (config : GenerationConfig) (message : jsstring).

(** The state a request reads and writes: the session cache, keyed by session
    id, and the log of collaborator calls.  The cache hands out and takes in
    copies (its [get] and [set] clone), so it is a map to values; the expiry of
    its entries with time is not part of the model. *)
Record World := { sessionCache : gmap jsstring (list value); calls : list Call }.

Inductive result (A : Type) : Type :=
  | Ok (a : A)
  | Thrown.
Arguments Ok {A} a.
Arguments Thrown {A}.

(** State and exceptions: a computation runs on a world and either returns or
    throws, and the world it leaves is kept in both cases. *)
Definition M (A : Type) : Type := World -> result A * World.

Definition ret {A : Type} (a : A) : M A := fun w => (Ok a, w).

Definition bind {A B : Type} (m : M A) (k : A -> M B) : M B :=
  fun w => match m w with
           | (Ok a, w') => k a w'
           | (Thrown, w') => (Thrown, w')
           end.

Definition throw {A : Type} : M A := fun w => (Thrown, w).

Definition tryCatch {A : Type} (m : M A) (handler : M A) : M A :=
  fun w => match m w with
           | (Ok a, w') => (Ok a, w')
           | (Thrown, w') => handler w'
           end.

Declare Scope js_scope.
Delimit Scope js_scope with js.
Notation "'let*' x ':=' m 'in' k" := (bind m (fun x => k))
  (at level 10, x name, m at level 100, k at level 200) : js_scope.

Definition logCall (c : Call) : M unit :=
  fun w => (Ok tt, {| sessionCache := sessionCache w; calls := calls w ++ [c] |}).

(** ** Semantic retriever and the [/chat] handler (server.js 79-104, 160-222) *)

Record ScoredChunk := { itemText : jsstring; score : Q }.

(** [(a, b) => b.score - a.score]. *)
Definition byScoreDescending (a b : ScoredChunk) : Q := score b - score a.

(** The text of one history entry: [h?.parts?.text ?? '']. *)
Definition turnText (h : value) : value :=
  nullish (optChain (optChain h (jstr "parts")) (jstr "text")) (VStr []).

(** A conversation turn as the handler builds it:
    [{ role: r, parts: [{ text: t }] }], around the value [t] as it is. *)
Definition turnOf (role : jsstring) (t : value) : value :=
  VObj [(jstr "role", VStr role);
        (jstr "parts", VArr [VObj [(jstr "text", t)]])].

Definition mkTurn (role t : jsstring) : value := turnOf role (VStr t).

Definition userTurn (t : jsstring) : value := mkTurn (jstr "user") t.
Definition modelTurn (t : jsstring) : value := mkTurn (jstr "model") t.

Definition generationConfig : GenerationConfig :=
  {| maxOutputTokens := 800; temperature := 7 # 10; topP := 9 # 10 |}.

Definition clarification : jsstring :=
  jstr "Could you share a bit more detail so I can offer clearer guidance?".

(** The separator of the context block, ['\n\n---\n\n']. *)
Definition separator : jsstring := [LF; LF] ++ jstr "---" ++ [LF; LF].

Record Response := { status : Z; body : value }.

(** [res.status(400).json({ error: ... })], [res.json({ response })] and the
    reply of the [catch] block. *)
Definition badRequest : Response :=
  {| status := 400;
     body := VObj [(jstr "error", VStr (jstr "sessionId and prompt are required"))] |}.

Definition okResponse (finalText : jsstring) : Response :=
  {| status := 200; body := VObj [(jstr "response", VStr finalText)] |}.

Definition internalError : Response :=
  {| status := 500;
     body := VObj [(jstr "error", VStr (jstr "An internal server error occurred."))] |}.

(** The JSON body of a request, read at its two fields: each is the value
    found there, of whatever type, and [undefined] when the field is
    missing. *)
Record ChatBody := { sessionId : value; prompt : value }.

Definition promptInstructions : jsstring :=
  jstr "You are a wise and compassionate guide. Your wisdom is rooted entirely in the teachings of the Bhagavad Gita. You will be given CONTEXT from the Gita and a USER QUESTION.

        Your mission is to help the user by applying the timeless principles from the CONTEXT to their modern-day problem.

        **Your Rules:**
        1.  **PRIORITY ONE - SAFETY:** If the user's message expresses suicidal thoughts, severe depression, or intent to self-harm, you MUST drop your Gita persona immediately. Your ONLY response must be: " ++ [QUOTE] ++ jstr "It sounds like you are going through a difficult time. Please consider reaching out for help. You can connect with people who can support you by calling or texting 988 anytime in the US and Canada. In the UK, you can call 111. These services are free, confidential, and available 24/7. Please reach out for help." ++ [QUOTE] ++ jstr "
        2.  **Embody the Wisdom:** Do NOT act like a machine retrieving text. Speak directly and naturally. Never, under any circumstance, say " ++ [QUOTE] ++ jstr "based on the text," ++ [QUOTE] ++ jstr " " ++ [QUOTE] ++ jstr "according to the context," ++ [QUOTE] ++ jstr " or any similar phrase.
        3.  **Synthesize, Don't Summarize:** Do not just repeat what is in the context. Connect the principles from the Gita directly to the user's specific complaint or question, offering them perspective, clarity, and actionable insight.
        4.  **Handle Uncertainty Gracefully:**
            * **IF** the provided CONTEXT is not sufficient to answer the user's question directly, you **MUST NOT** say " ++ [QUOTE] ++ jstr "I cannot answer" ++ [QUOTE] ++ jstr " or " ++ [QUOTE] ++ jstr "I don't have enough information." ++ [QUOTE] ++ jstr "
            * Instead, you must choose one of these two options:
                * **Ask for Clarification:** Gently ask the user to rephrase or elaborate on their problem. For example: " ++ [QUOTE] ++ jstr "That is a deep concern. Could you tell me more about the feeling of attachment you are experiencing with this situation?" ++ [QUOTE] ++ jstr "
                * **Suggest a Related Question:** Reframe their query into a related question that the Gita *does* address. For example: " ++ [QUOTE] ++ jstr "Your question about fairness touches upon the complex nature of action and consequence. A central theme in the Gita is how to perform one's duty without being attached to the outcome. Would you like to explore that idea further?" ++ [QUOTE] ++ jstr "
        5.  **Handle Trivial Questions:** If the user asks a simple conversational question (e.g., " ++ [QUOTE] ++ jstr "How are you?" ++ [QUOTE] ++ jstr ", " ++ [QUOTE] ++ jstr "What is your name?" ++ [QUOTE] ++ jstr ") that is unrelated to the Gita, provide a simple, direct answer in character without trying to force a connection to the text.
        6.  **Be Laconic:** Do not be over-enthusiastic. If the user query is trivial, reply only what's needed.
        7.  **Format your text appropriately**" ++ [QUOTE] ++ jstr "

        **CONTEXT:**
        ".

Definition promptQuestionHeader : jsstring :=
  jstr "

        **USER QUESTION:**
        ".

Definition promptGuidanceFooter : jsstring :=
  jstr "

        **Your Guidance:".

Section Server.
Local Open Scope js_scope.

(** The engine's printing of numbers. *)
Variable numberToString : number -> jsstring.
(** The [cosine-similarity] package: the score of two vectors, a finite
    number (a cosine, between -1 and 1), taken exactly. *)
Variable cosineSimilarity : list Q -> list Q -> Q.
(** The embedding service: the vector of a text, or [None] when the call
    is rejected. *)
Variable embedContent : jsstring -> TaskType -> option (list Q).
(** The generation service, given the chat history and the message: what
    the call came to, and the history array as the call left it. *)
Variable sendMessage :
  list value -> GenerationConfig -> jsstring -> Generation * list value.
(** The session cache on a key that is not a string: the name it files the
    entry under, or [None] when it refuses the key with an exception. *)
Variable nonStringKey : value -> option jsstring.
(** The store loaded at startup, in its typed reading ([storeOfValue]). *)
Variable pdfChunksWithEmbeddings : list Chunk.

Definition embed (content : jsstring) (taskType : TaskType) : M (list Q) :=
  let* _ := logCall (CallEmbed content taskType) in
  match embedContent content taskType with
  | Some values => ret values
  | None => throw
  end.

(** [model.startChat({ history, generationConfig })], [chat.sendMessage(message)]
    and [result?.response?.text?.() ?? '']: the text, and the array [history]
    as it now is. *)
Definition generate (history : list value) (message : jsstring)
    : M (jsstring * list value) :=
  let* _ := logCall (CallGenerate history generationConfig message) in
  match sendMessage history generationConfig message with
  | (GenRejected, _) => throw
  | (GenNoText, history') => ret ([], history')
  | (GenText s, history') => ret (s, history')
  end.

(** The entry of the cache a key names. *)
Definition sessionKey (key : value) : option jsstring :=
  match key with
  | VStr s => Some s
  | _ => nonStringKey key
  end.

(** [sessionCache.get(key)]: the stored value, or [undefined]. *)
Definition cacheGet (key : value) : M (option (list value)) :=
  fun w => match sessionKey key with
           | Some k => (Ok (sessionCache w !! k), w)
           | None => (Thrown, w)
           end.

(** [sessionCache.set(key, val)]. *)
Definition cacheSet (key : value) (val : list value) : M unit :=
  fun w => match sessionKey key with
           | Some k => (Ok tt, {| sessionCache := <[k := val]> (sessionCache w);
                                  calls := calls w |})
           | None => (Thrown, w)
           end.

(** A value in a template literal, [`${v}`]. *)
Definition templateText (v : value) : M jsstring :=
  if printable v then ret (toStr numberToString v) else throw.

(** [history.slice(-4).map(h => (h?.parts?.text ?? '')).filter(Boolean).join('\n')] *)
Definition recentHistoryText (history : list value) : jsstring :=
  join numberToString [LF] (List.filter truthy (map turnText (arraySliceFrom history (-4)))).

(** The template [`${recentHistoryText} \n ${query}`]. *)
Definition combinedQuery (query : jsstring) (history : list value) : jsstring :=
  recentHistoryText history ++ [SP; LF; SP] ++ query.

Definition scoredChunks (queryEmbedding : list Q) : list ScoredChunk :=
  map (fun chunk => {| itemText := text chunk;
                       score := cosineSimilarity queryEmbedding (embedding chunk) |})
      pdfChunksWithEmbeddings.

(** The scored chunks the retriever keeps, in the order it returns them. *)
Definition topScored (queryEmbedding : list Q) (topK : Z) : list ScoredChunk :=
  arraySlice (arraySort byScoreDescending (scoredChunks queryEmbedding)) 0 topK.

(** The retriever reads [query] in its template only: [query] stands for
    the string the template makes of it. *)
Definition retrieveRelevantChunksVector (query : jsstring) (history : list value)
    (topK : Z) : M (list jsstring) :=
  if (length pdfChunksWithEmbeddings =? 0)%nat then ret []
  else
    let* queryEmbedding := embed (combinedQuery query history) RETRIEVAL_QUERY in
    ret (map itemText (topScored queryEmbedding topK)).

Definition fullPrompt (context prompt : jsstring) : jsstring :=
  promptInstructions ++ context ++ promptQuestionHeader ++ prompt ++ promptGuidanceFooter.

(** The [try] block of the handler.

    [prompt] is printed by two templates, the retriever's when the store is
    not empty and then the one of [fullPrompt]; both come before any call,
    so a [prompt] that cannot be printed ends the block at [templateText],
    the world as it was.  The turn pushed at line 212 holds [prompt] itself.

    [chatHistory] is one array: the chat session is started on it (line
    200), and the two pushes of lines 212-213 go onto it as [sendMessage]
    left it. *)
Definition chatTurn (sessionId prompt : value) : M Response :=
  let* cached := cacheGet sessionId in
  let chatHistory := default [] cached in
  let* promptText := templateText prompt in
  let* contextChunks := retrieveRelevantChunksVector promptText chatHistory 3 in
  let context := joinStrings separator contextChunks in
  let* generated := generate chatHistory (fullPrompt context promptText) in
  let text := fst generated in
  let chatHistory := snd generated in
  let finalText := if (0 <? strlen (trim text)) then text else clarification in
  let chatHistory := chatHistory ++ [turnOf (jstr "user") prompt; modelTurn finalText] in
  let* _ := cacheSet sessionId chatHistory in
  ret (okResponse finalText).

(** [app.post('/chat', ...)]: the response sent and the world left. *)
Definition chatHandler (req : ChatBody) (w : World) : Response * World :=
  if negb (truthy (sessionId req)) || negb (truthy (prompt req))
  then (badRequest, w)
  else
    match tryCatch (chatTurn (sessionId req) (prompt req)) (ret internalError) w with
    | (Ok response, w') => (response, w')
    | (Thrown, w') => (internalError, w')
    end.
End Server.


(** ** Predicates of the statements *)

(** Every character of the string, read code point by code point, is one the
    class of the first [replace] leaves alone, and no surrogate stands alone. *)
Inductive Clean (uniLNPZs : Z -> bool) : jsstring -> Prop :=
  | Clean_nil : Clean uniLNPZs []
  | Clean_unit (c : codeunit) (s : jsstring) :
      isSurrogate c = false -> keptByClass uniLNPZs c = true ->
      Clean uniLNPZs s -> Clean uniLNPZs (c :: s)
  | Clean_pair (hi lo : codeunit) (s : jsstring) :
      isHighSurrogate hi = true -> isLowSurrogate lo = true ->
      keptByClass uniLNPZs (codePoint hi lo) = true ->
      Clean uniLNPZs s -> Clean uniLNPZs (hi :: lo :: s).

(** No tab and no two spaces in a row; [afterSpace] says that a space stands
    just before the string. *)
Fixpoint singleSpaced (afterSpace : bool) (s : jsstring) : bool :=
  match s with
  | [] => true
  | c :: rest =>
      if c =? TAB then false
      else if c =? SP then negb afterSpace && singleSpaced true rest
      else singleSpaced false rest
  end.

(** No three newlines in a row; [seen] newlines stand just before the string. *)
Fixpoint shortNewlineRuns (seen : nat) (s : jsstring) : bool :=
  match s with
  | [] => true
  | c :: rest =>
      if c =? LF
      then match seen with
           | S (S _) => false
           | _ => shortNewlineRuns (S seen) rest
           end
      else shortNewlineRuns O rest
  end.

(** A history made of turns as the handler stores them. *)
Definition storedHistory (history : list value) : Prop :=
  exists turns : list (jsstring * jsstring),
    history = map (fun rt => mkTurn (fst rt) (snd rt)) turns.

(** What a turn says when read back: its [role], and the [text] of the
    first of its [parts]. *)
Definition turnRole (turn : value) : value := getProp turn (jstr "role").

Definition turnFirstText (turn : value) : value :=
  getProp (getProp (getProp turn (jstr "parts")) (jstr "0")) (jstr "text").

(** The first character of the rest is not one of the run. *)
Definition startsOutside (inClass : codeunit -> bool) (rest : jsstring) : Prop :=
  match rest with
  | [] => True
  | c :: _ => inClass c = false
  end.

(** The order the comparator asks for: [a] may stand before [b]. *)
Definition notBelow (a b : ScoredChunk) : Prop := (score b <= score a)%Q.

(** ** Sample data of the end-to-end scenarios *)

(** The inner product: the cosine similarity of two unit vectors. *)
Fixpoint dot (a b : list Q) : Q :=
  match a, b with
  | x :: a', y :: b' => x * y + dot a' b'
  | _, _ => 0
  end.

Definition unitX : list Q := [1%Q; 0%Q].
Definition unitY : list Q := [0%Q; 1%Q].

Definition sampleStore : list Chunk :=
  [ {| text := jstr "duty without attachment"; embedding := unitX |};
    {| text := jstr "the nature of the self"; embedding := unitY |} ].

(** A printing of numbers for the scenarios, none of which prints one. *)
Definition printNothing (n : number) : jsstring := [].

Definition emptyWorld : World := {| sessionCache := ∅; calls := [] |}.

Definition sampleRequest : ChatBody :=
  {| sessionId := VStr (jstr "s1"); prompt := VStr (jstr "what is duty?") |}.

(** A cache that takes strings as keys and refuses every other value. *)
Definition stringKeysOnly (key : value) : option jsstring := None.

(** A generation service that answers [reply] to every message and leaves
    the history array alone. *)
Definition replying (reply : jsstring) (history : list value)
    (config : GenerationConfig) (message : jsstring) : Generation * list value :=
  (GenText reply, history).

(** A generation service in the manner of the chat session of the SDK: it
    answers [reply], and pushes the message it was sent and its reply onto
    the history array it was started on. *)
Definition pushingReply (reply : jsstring) (history : list value)
    (config : GenerationConfig) (message : jsstring) : Generation * list value :=
  (GenText reply, history ++ [userTurn message; modelTurn reply]).

(** ** Corpus vector store, build path (server.js 111-157,
       generateEmbeddings.js 35-74)

<<
  const chunks = chunkText(data.text);
  const nonEmptyChunks = chunks.map(sanitizeText).filter(chunk => chunk.length > 0);
  if (nonEmptyChunks.length === 0) throw new Error(...);
  const BATCH_SIZE = 99;
  let allEmbeddings = [];
  for (let i = 0; i < nonEmptyChunks.length; i += BATCH_SIZE) {
      const batch = nonEmptyChunks.slice(i, i + BATCH_SIZE);
      const embeddingResult = await embeddingModel.batchEmbedContents({
          requests: batch.map(chunk => ({ content: { parts: [{ text: chunk }] },
                                          taskType: "RETRIEVAL_DOCUMENT" })) });
      allEmbeddings.push(...embeddingResult.embeddings);
  }
  const pdfChunksWithEmbeddings = nonEmptyChunks.map((chunk, index) => ({
      text: chunk, embedding: allEmbeddings[index].values }));
>>
    The whole body stands in a [try] whose [catch] ends the process with
    status 1. *)

Definition BATCH_SIZE : Z := 99.

(** One request of a batch: the text and the task type. *)
Definition EmbedRequest : Type := (jsstring * TaskType)%type.

(** What the build comes to: the store assigned ([processPdf]), the array
    serialised to the output file ([createEmbeddingsFile]), or the exit. *)
Inductive Build : Type :=
  | StoreReady (pdfChunksWithEmbeddings : list Chunk)
  | FileWritten (content : value)
  | BuildExit (code : Z).

(** The object literal [{ text: chunk, embedding: values }]. *)
Definition valueOfChunk (c : Chunk) : value :=
  VObj [(jstr "text", VStr (text c));
        (jstr "embedding", VArr (map (fun q => VNum (NFin q)) (embedding c)))].

Section Build.
(** The engine's Unicode table, for the sanitizer. *)
Variable uniLNPZs : Z -> bool.
(** The embedding service on a batch: the vectors it returns (the [values]
    of [embeddingResult.embeddings]), or [None] when the call is rejected. *)
Variable batchEmbedContents : list EmbedRequest -> option (list (list Q)).
(** [fs.writeFile] of the serialised array: whether the write went through. *)
Variable writeFile : value -> bool.

Definition embeddingRequests (batch : list jsstring) : list EmbedRequest :=
  map (fun chunk => (chunk, RETRIEVAL_DOCUMENT)) batch.

(** [chunks.map(sanitizeText).filter(chunk => chunk.length > 0)] *)
Definition nonEmptyChunksOf (chunks : list jsstring) : list jsstring :=
  List.filter (fun chunk => 0 <? strlen chunk) (map (sanitizeText uniLNPZs) chunks).

(** The batch loop from index [i], with the vectors gathered so far and the
    batches sent so far.  [None] says the fuel ran out; a rejected call ends
    the loop with [Thrown]. *)
Fixpoint batchLoop (fuel : nat) (nonEmptyChunks : list jsstring) (i : Z)
    (allEmbeddings : list (list Q)) (sent : list (list EmbedRequest))
    : option (result (list (list Q)) * list (list EmbedRequest)) :=
  match fuel with
  | O => None
  | S fuel' =>
      if i <? Z.of_nat (length nonEmptyChunks) then
        let batch := arraySlice nonEmptyChunks i (i + BATCH_SIZE) in
        let requests := embeddingRequests batch in
        match batchEmbedContents requests with
        | Some embeddings =>
            batchLoop fuel' nonEmptyChunks (i + BATCH_SIZE)
              (allEmbeddings ++ embeddings) (sent ++ [requests])
        | None => Some (Thrown, sent ++ [requests])
        end
      else Some (Ok allEmbeddings, sent)
  end.

(** The final [map]: [allEmbeddings[index]] is [undefined] past the end of
    the array, and reading its [values] throws. *)
Fixpoint pairChunks (chunks : list jsstring) (index : nat)
    (allEmbeddings : list (list Q)) : result (list Chunk) :=
  match chunks with
  | [] => Ok []
  | chunk :: rest =>
      match nth_error allEmbeddings index with
      | None => Thrown
      | Some values =>
          match pairChunks rest (S index) allEmbeddings with
          | Ok paired => Ok ({| text := chunk; embedding := values |} :: paired)
          | Thrown => Thrown
          end
      end
  end.

(** The [try] block up to the store, on the text extracted from the PDF
    ([None]: reading or parsing the file failed), with the batches sent. *)
Definition buildStore (fuel : nat) (extracted : option jsstring)
    : option (result (list Chunk) * list (list EmbedRequest)) :=
  match extracted with
  | None => Some (Thrown, [])
  | Some dataText =>
      match chunkText fuel dataText defaultChunkSize with
      | None => None
      | Some chunks =>
          let nonEmptyChunks := nonEmptyChunksOf chunks in
          if (length nonEmptyChunks =? 0)%nat then Some (Thrown, [])
          else
            match batchLoop fuel nonEmptyChunks 0 [] [] with
            | None => None
            | Some (Thrown, sent) => Some (Thrown, sent)
            | Some (Ok allEmbeddings, sent) =>
                Some (pairChunks nonEmptyChunks 0 allEmbeddings, sent)
            end
      end
  end.

(** [processPdf] (server.js): the store is assigned to the global. *)
Definition processPdf (fuel : nat) (extracted : option jsstring)
    : option (Build * list (list EmbedRequest)) :=
  match buildStore fuel extracted with
  | None => None
  | Some (Ok store, sent) => Some (StoreReady store, sent)
  | Some (Thrown, sent) => Some (BuildExit 1, sent)
  end.

(** [createEmbeddingsFile] (generateEmbeddings.js): the store is serialised
    and written to the output file. *)
Definition createEmbeddingsFile (fuel : nat) (extracted : option jsstring)
    : option (Build * list (list EmbedRequest)) :=
  match buildStore fuel extracted with
  | None => None
  | Some (Ok store, sent) =>
      let content := VArr (map valueOfChunk store) in
      if writeFile content then Some (FileWritten content, sent)
      else Some (BuildExit 1, sent)
  | Some (Thrown, sent) => Some (BuildExit 1, sent)
  end.
End Build.

(** ** More predicates of the statements *)

(** A unit that leaves nothing behind in the sanitizer: it is no surrogate,
    and the class rejects it or it is white space. *)
Definition vanishes (uniLNPZs : Z -> bool) (c : codeunit) : Prop :=
  isSurrogate c = false /\ (keptByClass uniLNPZs c = false \/ isTrimSpace c = true).

(** A unit of readable content: kept by the class and not white space. *)
Definition isContent (uniLNPZs : Z -> bool) (c : codeunit) : bool :=
  keptByClass uniLNPZs c && negb (isTrimSpace c).

(** A history that ends with an exchange: a user turn, then a model turn
    whose text is not blank. *)
Definition endsWithExchange (history : list value) : Prop :=
  exists (earlier : list value) (user model : value) (reply : jsstring),
    history = earlier ++ [user; model]
    /\ turnRole user = VStr (jstr "user")
    /\ turnRole model = VStr (jstr "model")
    /\ turnFirstText model = VStr reply
    /\ trim reply <> [].

Definition cacheOfExchanges (w : World) : Prop :=
  forall (key : jsstring) (history : list value),
    sessionCache w !! key = Some history -> endsWithExchange history.

(** The chunk of a text and a vector. *)
Definition mkChunk (t : jsstring) (values : list Q) : Chunk :=
  {| text := t; embedding := values |}.

(** A batch as the loop cuts it: not empty, of [BATCH_SIZE] chunks at most. *)
Definition batchSized (batch : list jsstring) : Prop :=
  batch <> [] /\ Z.of_nat (length batch) <= BATCH_SIZE.

(** How the batch loop ended, given the batches it sent and the vectors it
    started with: every batch answered and the vectors gathered in order, or
    the last batch rejected and the ones before it answered. *)
Definition batchesAnswered
    (batchEmbedContents : list EmbedRequest -> option (list (list Q)))
    (batches : list (list jsstring)) (responses : list (list (list Q))) : Prop :=
  Forall2 (fun batch embeddings =>
             batchEmbedContents (embeddingRequests batch) = Some embeddings)
          batches responses.

Definition batchOutcome
    (batchEmbedContents : list EmbedRequest -> option (list (list Q)))
    (batches : list (list jsstring)) (gathered : list (list Q))
    (r : result (list (list Q))) : Prop :=
  match r with
  | Ok allEmbeddings =>
      exists responses,
        batchesAnswered batchEmbedContents batches responses
        /\ allEmbeddings = gathered ++ concat responses
  | Thrown =>
      exists before last,
        batches = before ++ [last]
        /\ batchEmbedContents (embeddingRequests last) = None
        /\ Forall (fun batch => batchEmbedContents (embeddingRequests batch) <> None) before
  end.

(** ** More sample data *)

Definition sampleEmbed (content : jsstring) (taskType : TaskType) : option (list Q) :=
  Some unitX.

Definition sampleGenerate : list value -> GenerationConfig -> jsstring
                           -> Generation * list value :=
  pushingReply (jstr "act without attachment").

Definition sampleHandler : ChatBody -> World -> Response * World :=
  chatHandler printNothing dot sampleEmbed sampleGenerate stringKeysOnly sampleStore.

Definition nextRequest : ChatBody :=
  {| sessionId := VStr (jstr "s1"); prompt := VStr (jstr "and then?") |}.

Definition sampleDocument : jsstring :=
  [0; SP] ++ jstr "Arjuna  said:" ++ [TAB; LF; LF; LF; LF] ++ jstr "what is duty?" ++ [LF].

Definition sampleText : jsstring :=
  jstr "Arjuna said:" ++ [SP; LF; LF] ++ jstr "what is duty?".

(** An embedding service that answers every request with the same vector. *)
Definition sampleBatchService (requests : list EmbedRequest) : option (list (list Q)) :=
  Some (map (fun _ => unitX) requests).

Definition sampleWrite (content : value) : bool := true.

(** * Properties *)

(** ** The segmenter *)

Example chunkText_abcde :
  chunkText 10 (jstr "abcde") 2 = Some [jstr "ab"; jstr "cd"; jstr "e"].
Proof. reflexivity. Qed.

Lemma strlen_nonneg (s : jsstring) : 0 <= strlen s.
Proof. unfold strlen. lia. Qed.

(** Inside the loop the window [substring(i, i + chunkSize)] is the next
    [chunkSize] code units from offset [i]. *)
Lemma substring_window (s : jsstring) (i n : Z) :
  0 <= i -> 0 < n ->
  substring s i (i + n) = firstn (Z.to_nat n) (skipn (Z.to_nat i) s).
Proof.
  intros Hi Hn. unfold substring, clampIndex, strlen.
  destruct (Z_le_gt_dec i (Z.of_nat (length s))) as [Hle | Hgt].
  - destruct (Z_le_gt_dec (i + n) (Z.of_nat (length s))) as [Hin | Hout].
    + replace (Z.min (Z.max i 0) (Z.of_nat (length s))) with i by lia.
      replace (Z.min (Z.max (i + n) 0) (Z.of_nat (length s))) with (i + n) by lia.
      replace (Z.max i (i + n) - Z.min i (i + n)) with n by lia.
      replace (Z.min i (i + n)) with i by lia. reflexivity.
    + replace (Z.min (Z.max i 0) (Z.of_nat (length s))) with i by lia.
      replace (Z.min (Z.max (i + n) 0) (Z.of_nat (length s)))
        with (Z.of_nat (length s)) by lia.
      replace (Z.min i (Z.of_nat (length s))) with i by lia.
      replace (Z.max i (Z.of_nat (length s))) with (Z.of_nat (length s)) by lia.
      rewrite !firstn_all2; trivial; rewrite length_skipn; lia.
  - replace (Z.min (Z.max i 0) (Z.of_nat (length s))) with (Z.of_nat (length s)) by lia.
    replace (Z.min (Z.max (i + n) 0) (Z.of_nat (length s)))
      with (Z.of_nat (length s)) by lia.
    rewrite Z.max_id, Z.min_id, Z.sub_diag. simpl.
    rewrite (skipn_all2 s (n := Z.to_nat i)) by lia.
    now rewrite firstn_nil.
Qed.

Lemma substring_window_length (s : jsstring) (i n : Z) :
  0 <= i -> 0 < n -> strlen (substring s i (i + n)) <= n.
Proof.
  intros Hi Hn. rewrite substring_window by assumption.
  unfold strlen. rewrite length_firstn. lia.
Qed.

(** The loop from offset [i], with the chunks pushed so far in [acc]: when the
    chunk size is positive it exits within [length text - i + 1] tests, having
    pushed the windows that tile the rest of the text. *)
Lemma chunkLoop_positive (text : jsstring) (n : Z) :
  0 < n ->
  forall (fuel : nat) (i : Z) (acc : list jsstring),
    0 <= i -> Z.max (strlen text - i) 0 < Z.of_nat fuel ->
    exists chunks,
      chunkLoop fuel text n i acc = Some (acc ++ chunks)
      /\ concat chunks = skipn (Z.to_nat i) text
      /\ Forall (fun c => strlen c <= n) chunks
      /\ (forall (k : nat) (c : jsstring), nth_error chunks k = Some c ->
            c = substring text (i + Z.of_nat k * n) (i + Z.of_nat k * n + n)).
Proof.
  intros Hn fuel. induction fuel as [| fuel IH]; intros i acc Hi Hfuel.
  - lia.
  - simpl. destruct (i <? strlen text) eqn:Htest.
    + apply Z.ltb_lt in Htest.
      destruct (IH (i + n) (acc ++ [substring text i (i + n)])) as (rest & Hrun & Hcat & Hlen & Hwin);
        [lia | lia |].
      exists (substring text i (i + n) :: rest). repeat split.
      * rewrite Hrun, <- app_assoc. reflexivity.
      * simpl. rewrite Hcat, substring_window by lia.
        replace (Z.to_nat (i + n)) with (Z.to_nat n + Z.to_nat i)%nat by lia.
        rewrite <- skipn_skipn. apply firstn_skipn.
      * constructor; [apply substring_window_length; lia | exact Hlen].
      * intros [| k] c Hk; simpl in Hk.
        -- injection Hk as <-. f_equal; lia.
        -- apply Hwin in Hk. subst c. f_equal; lia.
    + apply Z.ltb_ge in Htest. exists []. rewrite app_nil_r. repeat split.
      * simpl. symmetry. apply skipn_all2. unfold strlen in Htest. lia.
      * constructor.
      * intros [| k] c Hk; discriminate Hk.
Qed.

(** With a chunk size that is zero or negative the offset never passes the
    length of a non-empty text: the loop test succeeds at every iteration. *)
Lemma chunkLoop_no_progress (text : jsstring) (n : Z) :
  n <= 0 ->
  forall (fuel : nat) (i : Z) (acc : list jsstring),
    i < strlen text -> chunkLoop fuel text n i acc = None.
Proof.
  intros Hn fuel. induction fuel as [| fuel IH]; intros i acc Hi; simpl.
  - reflexivity.
  - apply Z.ltb_lt in Hi as Htest. rewrite Htest. apply IH. lia.
Qed.

(** The result does not depend on the fuel, once there is enough of it. *)
Lemma chunkLoop_fuel_mono (text : jsstring) (n : Z) :
  forall (fuel fuel' : nat) (i : Z) (acc chunks : list jsstring),
    (fuel <= fuel')%nat ->
    chunkLoop fuel text n i acc = Some chunks ->
    chunkLoop fuel' text n i acc = Some chunks.
Proof.
  intros fuel. induction fuel as [| fuel IH]; intros fuel' i acc chunks Hle Hrun.
  - discriminate Hrun.
  - destruct fuel' as [| fuel']; [lia |]. simpl in *.
    destruct (i <? strlen text); [apply IH; [lia | exact Hrun] | exact Hrun].
Qed.

(** C2: for a positive chunk size, [chunkText] returns windows of the text of
    [chunkSize] code units at most, the k-th one starting at offset
    [k * chunkSize] (so they are contiguous and do not overlap), and their
    concatenation in order is the text. *)
Theorem chunkText_partition (text : jsstring) (chunkSize : Z) :
  0 < chunkSize ->
  exists chunks,
    (forall fuel, (length text < fuel)%nat -> chunkText fuel text chunkSize = Some chunks)
    /\ concat chunks = text
    /\ Forall (fun c => strlen c <= chunkSize) chunks
    /\ (forall (k : nat) (c : jsstring), nth_error chunks k = Some c ->
          c = substring text (Z.of_nat k * chunkSize) (Z.of_nat k * chunkSize + chunkSize)).
Proof.
  intros Hn.
  destruct (chunkLoop_positive text chunkSize Hn (S (length text)) 0 [])
    as (chunks & Hrun & Hcat & Hlen & Hwin); [lia | unfold strlen; lia |].
  exists chunks. repeat split.
  - intros fuel Hfuel. unfold chunkText.
    apply chunkLoop_fuel_mono with (fuel := S (length text)); [lia | exact Hrun].
  - exact Hcat.
  - exact Hlen.
  - intros k c Hk. apply Hwin in Hk. exact Hk.
Qed.

Lemma chunkText_partition_witness :
  exists chunks,
    (forall fuel, (length (jstr "abcde") < fuel)%nat ->
                  chunkText fuel (jstr "abcde") 2 = Some chunks)
    /\ concat chunks = jstr "abcde"
    /\ Forall (fun c => strlen c <= 2) chunks
    /\ (forall (k : nat) (c : jsstring), nth_error chunks k = Some c ->
          c = substring (jstr "abcde") (Z.of_nat k * 2) (Z.of_nat k * 2 + 2)).
Proof. apply (chunkText_partition (jstr "abcde") 2). lia. Defined.

Example chunkTextWithin_abcde :
  chunkTextWithin 3 10 (jstr "abcde") 2 = Returned [jstr "ab"; jstr "cd"; jstr "e"]
  /\ chunkTextWithin 3 10 (jstr "abcde") 0 = PushFailed
  /\ chunkTextWithin 3 10 [] 0 = Returned [].
Proof. repeat split. Qed.

(** The chunks pushed so far stay at the head of the array returned. *)
Lemma chunkLoop_extends (text : jsstring) (n : Z) :
  forall (fuel : nat) (i : Z) (acc chunks : list jsstring),
    chunkLoop fuel text n i acc = Some chunks -> exists more, chunks = acc ++ more.
Proof.
  intros fuel. induction fuel as [| fuel IH]; intros i acc chunks Hrun; simpl in Hrun.
  - discriminate Hrun.
  - destruct (i <? strlen text).
    + apply IH in Hrun as [more ->]. rewrite <- app_assoc. eauto.
    + injection Hrun as <-. exists []. now rewrite app_nil_r.
Qed.

(** With a positive chunk size every turn of the loop moves on in the text:
    it pushes no more chunks than there are code units left. *)
Lemma chunkLoop_count (text : jsstring) (n : Z) :
  0 < n ->
  forall (fuel : nat) (i : Z) (acc chunks : list jsstring),
    chunkLoop fuel text n i acc = Some chunks ->
    Z.of_nat (length chunks) <= Z.of_nat (length acc) + Z.max (strlen text - i) 0.
Proof.
  intros Hn fuel. induction fuel as [| fuel IH]; intros i acc chunks Hrun; simpl in Hrun.
  - discriminate Hrun.
  - destruct (Z.ltb_spec i (strlen text)) as [Hlt | Hge].
    + apply IH in Hrun. rewrite length_app in Hrun. simpl in Hrun. lia.
    + injection Hrun as <-. lia.
Qed.

(** In an engine whose array can hold the chunks the loop returns them. *)
Lemma chunkLoopWithin_fits (capacity : nat) (text : jsstring) (n : Z) :
  forall (fuel : nat) (i : Z) (acc chunks : list jsstring),
    chunkLoop fuel text n i acc = Some chunks ->
    (length chunks <= capacity)%nat ->
    chunkLoopWithin capacity fuel text n i acc = Returned chunks.
Proof.
  intros fuel. induction fuel as [| fuel IH]; intros i acc chunks Hrun Hfit; simpl in *.
  - discriminate Hrun.
  - destruct (i <? strlen text).
    + destruct (chunkLoop_extends _ _ _ _ _ _ Hrun) as [more Hmore].
      assert (Hroom : (length acc < capacity)%nat)
        by (rewrite Hmore, !length_app in Hfit; simpl in Hfit; lia).
      apply Nat.ltb_lt in Hroom. rewrite Hroom. now apply IH.
    + now injection Hrun as <-.
Qed.

(** With a chunk size that is zero or negative and a text that is not empty
    the loop pushes at every turn: the array fills, and the next [push]
    fails. *)
Lemma chunkLoopWithin_stuck (capacity : nat) (text : jsstring) (n : Z) :
  n <= 0 ->
  forall (fuel : nat) (i : Z) (acc : list jsstring),
    i < strlen text -> (capacity - length acc < fuel)%nat ->
    chunkLoopWithin capacity fuel text n i acc = PushFailed.
Proof.
  intros Hn fuel. induction fuel as [| fuel IH]; intros i acc Hi Hfuel; simpl.
  - lia.
  - apply Z.ltb_lt in Hi as Htest. rewrite Htest.
    destruct (Nat.ltb_spec (length acc) capacity) as [Hroom | Hfull]; [| reflexivity].
    apply IH; [lia | rewrite length_app; simpl; lia].
Qed.

Lemma chunkLoopWithin_no_return (capacity : nat) (text : jsstring) (n : Z) :
  n <= 0 ->
  forall (fuel : nat) (i : Z) (acc chunks : list jsstring),
    i < strlen text -> chunkLoopWithin capacity fuel text n i acc <> Returned chunks.
Proof.
  intros Hn fuel. induction fuel as [| fuel IH]; intros i acc chunks Hi; simpl.
  - discriminate.
  - apply Z.ltb_lt in Hi as Htest. rewrite Htest.
    destruct (length acc <? capacity)%nat; [apply IH; lia | discriminate].
Qed.

(** C3 (as amended): [chunkText] fails exactly when the chunk size is zero or
    negative and the text is not empty.  A positive chunk size makes it
    return, within [length text + 1] loop tests, one chunk per code unit of
    the text at most, and so in every engine whose array can hold them.  A
    chunk size that is zero or negative makes it
    return the empty sequence on the empty text; on any other text every turn
    of the loop pushes an empty chunk, and whatever the array can hold the
    call fails at the [push] the array cannot take, and returns nothing. *)
Theorem chunkText_fails_when :
  (forall (text : jsstring) (chunkSize : Z), 0 < chunkSize ->
     exists chunks,
       (forall fuel, (length text < fuel)%nat ->
          chunkText fuel text chunkSize = Some chunks)
       /\ (length chunks <= length text)%nat
       /\ (forall capacity fuel, (length chunks <= capacity)%nat ->
             (length text < fuel)%nat ->
             chunkTextWithin capacity fuel text chunkSize = Returned chunks))
  /\ (forall (chunkSize : Z) (capacity fuel : nat), chunkSize <= 0 -> (0 < fuel)%nat ->
        chunkText fuel [] chunkSize = Some []
        /\ chunkTextWithin capacity fuel [] chunkSize = Returned [])
  /\ (forall (text : jsstring) (chunkSize : Z) (capacity : nat), chunkSize <= 0 ->
        text <> [] ->
        (forall fuel, (capacity < fuel)%nat ->
           chunkTextWithin capacity fuel text chunkSize = PushFailed)
        /\ (forall fuel chunks,
              chunkTextWithin capacity fuel text chunkSize <> Returned chunks)).
Proof.
  split; [| split].
  - intros text n Hn.
    destruct (chunkLoop_positive text n Hn (S (length text)) 0 [])
      as (chunks & Hrun & _); [lia | unfold strlen; lia |].
    assert (Hall : forall fuel, (length text < fuel)%nat ->
                     chunkText fuel text n = Some chunks).
    { intros fuel Hfuel. unfold chunkText.
      apply chunkLoop_fuel_mono with (fuel := S (length text)); [lia | exact Hrun]. }
    exists chunks. split; [exact Hall | split].
    + pose proof (chunkLoop_count text n Hn _ _ _ _ Hrun) as Hcount.
      rewrite app_nil_l in Hcount. unfold strlen in Hcount. simpl in Hcount. lia.
    + intros capacity fuel Hfit Hfuel. unfold chunkTextWithin.
      apply chunkLoopWithin_fits; [apply Hall, Hfuel | exact Hfit].
  - intros n capacity [| fuel] _ Hfuel; [lia | split; reflexivity].
  - intros text n capacity Hn Htext.
    assert (Hi : 0 < strlen text)
      by (destruct text; [congruence | unfold strlen; simpl; lia]).
    split.
    + intros fuel Hfuel. unfold chunkTextWithin.
      apply chunkLoopWithin_stuck; [exact Hn | exact Hi | simpl; lia].
    + intros fuel chunks. unfold chunkTextWithin.
      now apply chunkLoopWithin_no_return.
Qed.

Lemma chunkText_fails_when_witness :
  chunkTextWithin 3 7 (jstr "ab") 0 = PushFailed
  /\ chunkTextWithin 3 7 [] (-1) = Returned [].
Proof.
  split.
  - apply (proj1 (proj2 (proj2 chunkText_fails_when) (jstr "ab") 0 3%nat
                    ltac:(lia) ltac:(discriminate))).
    lia.
  - apply (proj2 (proj1 (proj2 chunkText_fails_when) (-1) 3%nat 7%nat
                    ltac:(lia) ltac:(lia))).
Defined.

(** C3 as stated fails: with chunk size 0 (or a negative one) the empty text
    is segmented without any failure, into the empty sequence. *)
Lemma chunkText_nonpositive_returns :
  chunkText 1 [] 0 = Some [] /\ chunkText 1 [] (-3) = Some [].
Proof. split; reflexivity. Qed.

(** ** The sanitizer *)

Example sanitize_example :
  sanitizeText basicLatin
    (jstr "  a" ++ [TAB; SP] ++ jstr "b" ++ [LF; LF; LF; LF] ++ jstr "c" ++ [0; LF])
  = jstr "a b" ++ [LF; LF] ++ jstr "c".
Proof. reflexivity. Qed.

(** Decides the comparisons of code units that a goal or a hypothesis
    mentions, one at a time, closing the cases that arithmetic refutes. *)
Ltac units :=
  unfold isBlank, isTrimSpace, isSurrogate, isHighSurrogate, isLowSurrogate,
         TAB, LF, CR, SP in *;
  repeat match goal with
         | H : context [?a <=? ?b] |- _ => destruct (Z.leb_spec a b); simpl in H; try lia
         | H : context [?a =? ?b] |- _ => destruct (Z.eqb_spec a b); simpl in H; try lia
         | |- context [?a <=? ?b] => destruct (Z.leb_spec a b); simpl; try lia
         | |- context [?a =? ?b] => destruct (Z.eqb_spec a b); simpl; try lia
         end;
  try discriminate; try reflexivity; try lia.

Lemma surrogate_high (c : codeunit) : isHighSurrogate c = true -> isSurrogate c = true.
Proof. intros H. units. Qed.

Lemma surrogate_low (c : codeunit) : isLowSurrogate c = true -> isSurrogate c = true.
Proof. intros H. units. Qed.

Lemma not_surrogate_high (c : codeunit) : isSurrogate c = false -> isHighSurrogate c = false.
Proof. intros H. units. Qed.

Lemma surrogate_not_blank (c : codeunit) : isSurrogate c = true -> isBlank c = false.
Proof. intros H. units. Qed.

Lemma surrogate_not_newline (c : codeunit) : isSurrogate c = true -> (c =? LF) = false.
Proof. intros H. units. Qed.

Lemma surrogate_not_space (c : codeunit) : isSurrogate c = true -> isTrimSpace c = false.
Proof. intros H. units. Qed.

Lemma trimSpace_blank (c : codeunit) : isBlank c = true -> isTrimSpace c = true.
Proof. intros H. units. Qed.

Lemma trimSpace_newline (c : codeunit) : (c =? LF) = true -> isTrimSpace c = true.
Proof. intros H. units. Qed.

Section SanitizerFacts.
Variable uniLNPZs : Z -> bool.
(** Two facts of the Unicode table: the space is a Space_Separator, and the
    surrogate code points (category Cs) are in none of the four classes. *)
Hypothesis space_kept : uniLNPZs SP = true.
Hypothesis surrogates_rejected : forall c, isSurrogate c = true -> uniLNPZs c = false.

Lemma kept_space : keptByClass uniLNPZs SP = true.
Proof using space_kept. unfold keptByClass. now rewrite space_kept. Qed.

Lemma kept_newline : keptByClass uniLNPZs LF = true.
Proof using Type. unfold keptByClass. simpl. now rewrite orb_true_r. Qed.

Lemma surrogate_dropped (c : codeunit) :
  isSurrogate c = true -> keptByClass uniLNPZs c = false.
Proof using surrogates_rejected.
  intros H. unfold keptByClass. rewrite (surrogates_rejected c H). units.
Qed.

Lemma Clean_space (s : jsstring) : Clean uniLNPZs s -> Clean uniLNPZs (SP :: s).
Proof using space_kept. intros H. apply Clean_unit; [reflexivity | apply kept_space | exact H]. Qed.

(** What the first [replace] returns has only characters of the class. *)
Lemma replaceDisallowed_Clean (s : jsstring) : Clean uniLNPZs (replaceDisallowed uniLNPZs s).
Proof using space_kept surrogates_rejected.
  remember (length s) as n eqn:Hn.
  assert (Hle : (length s <= n)%nat) by lia. clear Hn. revert s Hle.
  induction n as [| n IH]; intros [| c rest] Hle; simpl in *; try constructor; try lia.
  assert (Hrest : Clean uniLNPZs (replaceDisallowed uniLNPZs rest)) by (apply IH; lia).
  assert (Hone : Clean uniLNPZs
                   ((if keptByClass uniLNPZs c then [c] else [SP])
                      ++ replaceDisallowed uniLNPZs rest)).
  { destruct (keptByClass uniLNPZs c) eqn:Hk; simpl.
    - apply Clean_unit; trivial.
      destruct (isSurrogate c) eqn:Hs; trivial.
      rewrite (surrogate_dropped c Hs) in Hk. discriminate.
    - now apply Clean_space. }
  destruct (isHighSurrogate c) eqn:Hhi; [| exact Hone].
  destruct rest as [| lo rest'].
  - rewrite (surrogate_dropped c (surrogate_high c Hhi)).
    apply Clean_space. constructor.
  - destruct (isLowSurrogate lo) eqn:Hlo; [| exact Hone].
    assert (Hrest' : Clean uniLNPZs (replaceDisallowed uniLNPZs rest'))
      by (apply IH; simpl in Hle; lia).
    destruct (keptByClass uniLNPZs (codePoint c lo)) eqn:Hk.
    + now apply Clean_pair.
    + now apply Clean_space.
Qed.

(** On such a string the first [replace] finds nothing to replace. *)
Lemma replaceDisallowed_fixed (s : jsstring) :
  Clean uniLNPZs s -> replaceDisallowed uniLNPZs s = s.
Proof using Type.
  induction 1 as [| c s Hs Hk _ IH | hi lo s Hhi Hlo Hk _ IH]; simpl.
  - reflexivity.
  - rewrite (not_surrogate_high c Hs), Hk, IH. reflexivity.
  - rewrite Hhi, Hlo, Hk, IH. reflexivity.
Qed.

Lemma collapseBlanks_Clean (s : jsstring) :
  Clean uniLNPZs s -> forall inRun, Clean uniLNPZs (collapseBlanks inRun s).
Proof using space_kept.
  induction 1 as [| c s Hs Hk _ IH | hi lo s Hhi Hlo Hk _ IH]; intros inRun; simpl.
  - constructor.
  - destruct (isBlank c).
    + destruct inRun; simpl; [apply IH | apply Clean_space, IH].
    + apply Clean_unit; trivial.
  - rewrite (surrogate_not_blank hi (surrogate_high hi Hhi)),
            (surrogate_not_blank lo (surrogate_low lo Hlo)).
    apply Clean_pair; trivial.
Qed.

Lemma collapseNewlines_Clean (s : jsstring) :
  Clean uniLNPZs s -> forall seen, Clean uniLNPZs (collapseNewlines seen s).
Proof using Type.
  induction 1 as [| c s Hs Hk _ IH | hi lo s Hhi Hlo Hk _ IH]; intros seen; simpl.
  - constructor.
  - destruct (c =? LF).
    + destruct seen as [| [| seen]]; try apply Clean_unit; trivial.
    + apply Clean_unit; trivial.
  - rewrite (surrogate_not_newline hi (surrogate_high hi Hhi)),
            (surrogate_not_newline lo (surrogate_low lo Hlo)).
    apply Clean_pair; trivial.
Qed.

Lemma trimStart_Clean (s : jsstring) : Clean uniLNPZs s -> Clean uniLNPZs (trimStart s).
Proof using Type.
  induction 1 as [| c s Hs Hk Hc IH | hi lo s Hhi Hlo Hk Hc IH]; simpl.
  - constructor.
  - destruct (isTrimSpace c); [exact IH | now apply Clean_unit].
  - rewrite (surrogate_not_space hi (surrogate_high hi Hhi)). now apply Clean_pair.
Qed.

Lemma trimEnd_cons_kept (c : codeunit) (s : jsstring) :
  isTrimSpace c = false -> trimEnd (c :: s) = c :: trimEnd s.
Proof using Type. intros Hc. simpl. rewrite Hc. now destruct (trimEnd s). Qed.

Lemma trimEnd_cons (c : codeunit) (s : jsstring) :
  trimEnd (c :: s) = [] \/ trimEnd (c :: s) = c :: trimEnd s.
Proof using Type.
  simpl. destruct (trimEnd s); [destruct (isTrimSpace c) |]; auto.
Qed.

Lemma trimEnd_Clean (s : jsstring) : Clean uniLNPZs s -> Clean uniLNPZs (trimEnd s).
Proof using Type.
  induction 1 as [| c s Hs Hk Hc IH | hi lo s Hhi Hlo Hk Hc IH].
  - constructor.
  - destruct (trimEnd_cons c s) as [-> | ->]; [constructor | now apply Clean_unit].
  - rewrite !trimEnd_cons_kept
      by (apply surrogate_not_space; auto using surrogate_high, surrogate_low).
    now apply Clean_pair.
Qed.

(** The output of the sanitizer has only characters of the class. *)
Lemma sanitizeText_Clean (text : jsstring) : Clean uniLNPZs (sanitizeText uniLNPZs text).
Proof using space_kept surrogates_rejected.
  unfold sanitizeText, trim.
  apply trimEnd_Clean, trimStart_Clean, collapseNewlines_Clean, collapseBlanks_Clean.
  apply replaceDisallowed_Clean.
Qed.
End SanitizerFacts.

(** *** The scanners against their patterns *)

(** [/[ \t]+/g]: a unit outside the class is copied, and a maximal run of
    spaces and tabs is replaced by one space. *)
Lemma collapseBlanks_other (c : codeunit) (rest : jsstring) (inRun : bool) :
  isBlank c = false -> collapseBlanks inRun (c :: rest) = c :: collapseBlanks false rest.
Proof. intros Hc. simpl. now rewrite Hc. Qed.

Lemma collapseBlanks_skip (run rest : jsstring) :
  Forall (fun c => isBlank c = true) run -> startsOutside isBlank rest ->
  collapseBlanks true (run ++ rest) = collapseBlanks false rest.
Proof.
  intros Hrun Hrest. induction Hrun as [| c run Hc _ IH]; simpl.
  - destruct rest as [| d rest]; [reflexivity |]. simpl in *. now rewrite Hrest.
  - now rewrite Hc.
Qed.

Lemma collapseBlanks_run (run rest : jsstring) :
  run <> [] -> Forall (fun c => isBlank c = true) run -> startsOutside isBlank rest ->
  collapseBlanks false (run ++ rest) = SP :: collapseBlanks false rest.
Proof.
  intros Hne Hrun Hrest. destruct run as [| c run]; [congruence |].
  inversion Hrun as [| c' run' Hc Hrun']; subst. simpl. rewrite Hc. simpl.
  f_equal. now apply collapseBlanks_skip.
Qed.

(** [/\n{3,}/g]: a maximal run of [n] newlines becomes two newlines when
    [n >= 3] and is copied otherwise. *)
Lemma collapseNewlines_other (c : codeunit) (rest : jsstring) (seen : nat) :
  (c =? LF) = false -> collapseNewlines seen (c :: rest) = c :: collapseNewlines O rest.
Proof. intros Hc. simpl. now rewrite Hc. Qed.

Lemma collapseNewlines_drop (n : nat) (rest : jsstring) :
  startsOutside (fun c => c =? LF) rest ->
  collapseNewlines 2 (repeat LF n ++ rest) = collapseNewlines O rest.
Proof.
  intros Hrest. induction n as [| n IH]; simpl; [| exact IH].
  destruct rest as [| d rest]; [reflexivity |]. simpl in *. now rewrite Hrest.
Qed.

Lemma collapseNewlines_run (n : nat) (rest : jsstring) :
  startsOutside (fun c => c =? LF) rest ->
  collapseNewlines O (repeat LF n ++ rest)
  = (if (3 <=? n)%nat then [LF; LF] else repeat LF n) ++ collapseNewlines O rest.
Proof.
  intros Hrest.
  assert (Hzero : collapseNewlines O rest = collapseNewlines 1 rest
                  /\ collapseNewlines O rest = collapseNewlines 2 rest).
  { destruct rest as [| d rest]; [now split |]. simpl in *. now rewrite Hrest. }
  destruct Hzero as [Hone Htwo].
  destruct n as [| [| [| n]]]; simpl.
  - reflexivity.
  - now rewrite Hone.
  - now rewrite Htwo.
  - do 2 f_equal. now apply collapseNewlines_drop.
Qed.

(** [trim]: white space goes from both ends and nothing else. *)
Lemma trimStart_spaces (ws rest : jsstring) :
  Forall (fun c => isTrimSpace c = true) ws -> startsOutside isTrimSpace rest ->
  trimStart (ws ++ rest) = rest.
Proof.
  intros Hws Hrest. induction Hws as [| c ws Hc _ IH]; simpl.
  - destruct rest as [| d rest]; [reflexivity |]. simpl in *. now rewrite Hrest.
  - now rewrite Hc.
Qed.

Lemma trimEnd_spaces (ws : jsstring) :
  Forall (fun c => isTrimSpace c = true) ws -> trimEnd ws = [].
Proof.
  induction 1 as [| c ws Hc _ IH]; simpl; [reflexivity |]. now rewrite IH, Hc.
Qed.

Lemma trimEnd_last_kept (s : jsstring) (c : codeunit) :
  isTrimSpace c = false -> trimEnd (s ++ [c]) = s ++ [c].
Proof.
  intros Hc. induction s as [| d s IH]; simpl; [now rewrite Hc |].
  rewrite IH. now destruct (s ++ [c]) eqn:E; [destruct s; discriminate |].
Qed.

Lemma trimEnd_app_spaces (s ws : jsstring) :
  Forall (fun c => isTrimSpace c = true) ws -> trimEnd (s ++ ws) = trimEnd s.
Proof.
  intros Hws. induction s as [| d s IH]; simpl; [now apply trimEnd_spaces |].
  now rewrite IH.
Qed.

(** *** Runs of spaces and tabs *)

Lemma collapseBlanks_singleSpaced (s : jsstring) :
  forall inRun, singleSpaced inRun (collapseBlanks inRun s) = true.
Proof.
  induction s as [| c s IH]; intros inRun; simpl; [reflexivity |].
  destruct (isBlank c) eqn:Hc.
  - destruct inRun; simpl; [apply IH | apply IH].
  - simpl. replace (c =? TAB) with false by units.
    replace (c =? SP) with false by units. apply IH.
Qed.

Lemma collapseBlanks_fixed (s : jsstring) :
  forall inRun, singleSpaced inRun s = true -> collapseBlanks inRun s = s.
Proof.
  induction s as [| c s IH]; intros inRun H; simpl in *; [reflexivity |].
  destruct (c =? TAB) eqn:Htab; [discriminate |].
  destruct (c =? SP) eqn:Hsp.
  - apply andb_true_iff in H as [Hrun H]. destruct inRun; [discriminate |].
    replace (isBlank c) with true by units. simpl.
    apply Z.eqb_eq in Hsp. subst c. f_equal. now apply IH.
  - replace (isBlank c) with false by units. f_equal. now apply IH.
Qed.

Lemma singleSpaced_weaken (s : jsstring) :
  forall afterSpace, singleSpaced afterSpace s = true -> singleSpaced false s = true.
Proof.
  destruct s as [| c s]; intros afterSpace H; simpl in *; [reflexivity |].
  destruct (c =? TAB); [discriminate |].
  destruct (c =? SP); [| exact H].
  apply andb_true_iff in H as [_ H]. exact H.
Qed.

Lemma collapseNewlines_singleSpaced (s : jsstring) :
  forall seen afterSpace,
    (seen <> O -> afterSpace = false) ->
    singleSpaced afterSpace s = true ->
    singleSpaced afterSpace (collapseNewlines seen s) = true.
Proof.
  induction s as [| c s IH]; intros seen afterSpace Hseen H; simpl in *; [reflexivity |].
  destruct (c =? LF) eqn:Hlf.
  - replace (c =? TAB) with false in H by units.
    replace (c =? SP) with false in H by units.
    destruct seen as [| [| seen]]; simpl;
      try (replace (c =? TAB) with false by units;
           replace (c =? SP) with false by units;
           apply IH; [congruence | exact H]).
    rewrite Hseen by discriminate. apply IH; [congruence | exact H].
  - simpl. destruct (c =? TAB); [discriminate |].
    destruct (c =? SP).
    + apply andb_true_iff in H as [Hrun H]. rewrite Hrun. simpl.
      apply IH; [congruence | exact H].
    + apply IH; [congruence | exact H].
Qed.

Lemma trimStart_singleSpaced (s : jsstring) :
  forall afterSpace, singleSpaced afterSpace s = true -> singleSpaced false (trimStart s) = true.
Proof.
  induction s as [| c s IH]; intros afterSpace H; [reflexivity |].
  simpl trimStart. destruct (isTrimSpace c) eqn:Hc.
  - simpl in H. destruct (c =? TAB); [discriminate |].
    destruct (c =? SP).
    + apply andb_true_iff in H as [_ H]. eapply IH, H.
    + eapply IH, H.
  - eapply singleSpaced_weaken, H.
Qed.

Lemma trimEnd_singleSpaced (s : jsstring) :
  forall afterSpace, singleSpaced afterSpace s = true -> singleSpaced afterSpace (trimEnd s) = true.
Proof.
  induction s as [| c s IH]; intros afterSpace H; [reflexivity |].
  destruct (trimEnd_cons c s) as [-> | ->]; [reflexivity |].
  simpl in *. destruct (c =? TAB); [discriminate |].
  destruct (c =? SP).
  - apply andb_true_iff in H as [Hrun H]. rewrite Hrun. simpl. now apply IH.
  - now apply IH.
Qed.

(** *** Runs of newlines *)

Lemma collapseNewlines_short (s : jsstring) :
  forall seen, shortNewlineRuns seen (collapseNewlines seen s) = true.
Proof.
  induction s as [| c s IH]; intros seen; simpl; [reflexivity |].
  destruct (c =? LF) eqn:Hlf.
  - destruct seen as [| [| seen]]; simpl; rewrite ?Hlf; apply IH.
  - simpl. rewrite Hlf. apply IH.
Qed.

Lemma collapseNewlines_fixed (s : jsstring) :
  forall seen, shortNewlineRuns seen s = true -> collapseNewlines seen s = s.
Proof.
  induction s as [| c s IH]; intros seen H; simpl in *; [reflexivity |].
  destruct (c =? LF).
  - destruct seen as [| [| seen]]; try discriminate; f_equal; now apply IH.
  - f_equal. now apply IH.
Qed.

Lemma shortNewlineRuns_fewer (s : jsstring) :
  forall seen seen', (seen' <= seen)%nat ->
    shortNewlineRuns seen s = true -> shortNewlineRuns seen' s = true.
Proof.
  induction s as [| c s IH]; intros seen seen' Hle H; simpl in *; [reflexivity |].
  destruct (c =? LF); [| exact H].
  destruct seen as [| [| seen]]; try discriminate;
    destruct seen' as [| [| seen']]; try lia;
    (eapply IH; [| exact H]; lia).
Qed.

Lemma trimStart_short (s : jsstring) :
  forall seen, shortNewlineRuns seen s = true -> shortNewlineRuns O (trimStart s) = true.
Proof.
  induction s as [| c s IH]; intros seen H; [reflexivity |].
  simpl trimStart. destruct (isTrimSpace c).
  - simpl in H. destruct (c =? LF).
    + destruct seen as [| [| seen]]; try discriminate; eapply IH, H.
    + eapply IH, H.
  - eapply shortNewlineRuns_fewer; [| exact H]. lia.
Qed.

Lemma trimEnd_short (s : jsstring) :
  forall seen, shortNewlineRuns seen s = true -> shortNewlineRuns seen (trimEnd s) = true.
Proof.
  induction s as [| c s IH]; intros seen H; [reflexivity |].
  destruct (trimEnd_cons c s) as [-> | ->]; [reflexivity |].
  simpl in *. destruct (c =? LF).
  - destruct seen as [| [| seen]]; try discriminate; now apply IH.
  - now apply IH.
Qed.

(** *** Trimming *)

Lemma trimStart_head (s : jsstring) :
  trimStart s = [] \/ exists c rest, trimStart s = c :: rest /\ isTrimSpace c = false.
Proof.
  induction s as [| c s IH]; simpl; [now left |].
  destruct (isTrimSpace c) eqn:Hc; [exact IH |].
  right. now exists c, s.
Qed.

Lemma trimEnd_idempotent (s : jsstring) : trimEnd (trimEnd s) = trimEnd s.
Proof.
  induction s as [| c s IH]; [reflexivity |].
  simpl. destruct (trimEnd s) as [| k kept] eqn:Hkept.
  - destruct (isTrimSpace c) eqn:Hc; [reflexivity |]. simpl. now rewrite Hc.
  - change (trimEnd (c :: k :: kept)) with
      (match trimEnd (k :: kept) with
       | [] => if isTrimSpace c then [] else [c]
       | kept' => c :: kept'
       end).
    rewrite IH. reflexivity.
Qed.

Lemma trim_idempotent (s : jsstring) : trim (trim s) = trim s.
Proof.
  unfold trim.
  assert (Hstart : trimStart (trimEnd (trimStart s)) = trimEnd (trimStart s)).
  { destruct (trimStart_head s) as [-> | (c & rest & -> & Hc)]; [reflexivity |].
    rewrite trimEnd_cons_kept by exact Hc. simpl. now rewrite Hc. }
  rewrite Hstart. apply trimEnd_idempotent.
Qed.

(** C5: [sanitizeText] is idempotent, for every Unicode table in which the
    space is kept and the surrogate code points are not. *)
Theorem sanitizeText_idempotent (uniLNPZs : Z -> bool) (x : jsstring) :
  uniLNPZs SP = true ->
  (forall c, isSurrogate c = true -> uniLNPZs c = false) ->
  sanitizeText uniLNPZs (sanitizeText uniLNPZs x) = sanitizeText uniLNPZs x.
Proof.
  intros Hsp Hsur.
  pose proof (sanitizeText_Clean uniLNPZs Hsp Hsur x) as Hclean.
  assert (Hspaced : singleSpaced false (sanitizeText uniLNPZs x) = true).
  { unfold sanitizeText, trim.
    apply trimEnd_singleSpaced. eapply trimStart_singleSpaced.
    apply collapseNewlines_singleSpaced; [congruence |].
    apply collapseBlanks_singleSpaced. }
  assert (Hshort : shortNewlineRuns O (sanitizeText uniLNPZs x) = true).
  { unfold sanitizeText, trim.
    apply trimEnd_short. eapply trimStart_short. apply collapseNewlines_short. }
  assert (Htrim : trim (sanitizeText uniLNPZs x) = sanitizeText uniLNPZs x).
  { unfold sanitizeText at 1. rewrite trim_idempotent. reflexivity. }
  unfold sanitizeText at 1.
  rewrite (replaceDisallowed_fixed uniLNPZs _ Hclean).
  rewrite (collapseBlanks_fixed _ false Hspaced).
  rewrite (collapseNewlines_fixed _ O Hshort).
  exact Htrim.
Qed.


Lemma basicLatin_surrogates (c : Z) : isSurrogate c = true -> basicLatin c = false.
Proof. intros H. unfold basicLatin. units. Qed.

Lemma sanitizeText_idempotent_witness :
  sanitizeText basicLatin (sanitizeText basicLatin (jstr " a" ++ [TAB; 0; LF; LF; LF] ++ jstr "b "))
  = sanitizeText basicLatin (jstr " a" ++ [TAB; 0; LF; LF; LF] ++ jstr "b ").
Proof.
  apply (sanitizeText_idempotent basicLatin).
  - reflexivity.
  - exact basicLatin_surrogates.
Defined.

(** *** What becomes of a rejected character *)

(** On a text without surrogates the first [replace] works unit by unit. *)
Lemma replaceDisallowed_bmp (uniLNPZs : Z -> bool) (s : jsstring) :
  Forall (fun c => isSurrogate c = false) s ->
  replaceDisallowed uniLNPZs s = map (fun c => if keptByClass uniLNPZs c then c else SP) s.
Proof.
  induction 1 as [| c s Hc _ IH]; simpl; [reflexivity |].
  rewrite (not_surrogate_high c Hc), IH. now destruct (keptByClass uniLNPZs c).
Qed.





(** ** The load path *)




(** ** The combined query *)

Lemma turnText_stored (role t : jsstring) : turnText (mkTurn role t) = VStr [].
Proof. reflexivity. Qed.

(** The entry shape the expression reads: [parts] an object with a [text]. *)
Example turnText_parts_object (t : jsstring) :
  turnText (VObj [(jstr "parts", VObj [(jstr "text", VStr t)])]) = VStr t.
Proof. reflexivity. Qed.

Lemma no_text_of_stored_turns (turns : list (jsstring * jsstring)) :
  List.filter truthy (map turnText (map (fun rt => mkTurn (fst rt) (snd rt)) turns)) = [].
Proof.
  induction turns as [| [role t] turns IH]; [reflexivity |].
  simpl map. rewrite turnText_stored. simpl. exact IH.
Qed.

Lemma arraySliceFrom_map {A B : Type} (f : A -> B) (l : list A) (start : Z) :
  arraySliceFrom (map f l) start = map f (arraySliceFrom l start).
Proof. unfold arraySliceFrom. now rewrite length_map, skipn_map. Qed.

Lemma recentHistoryText_stored (numberToString : number -> jsstring) (history : list value) :
  storedHistory history -> recentHistoryText numberToString history = [].
Proof.
  intros [turns ->]. unfold recentHistoryText.
  now rewrite arraySliceFrom_map, no_text_of_stored_turns.
Qed.

(** C1 (the code at the claim's inputs): after one exchange, the texts of the
    two stored turns are not in the combined query of the next request, which
    is a space, a newline, a space and the query.  The same holds for every
    history made of turns as the handler stores them, whatever their texts. *)
Theorem combinedQuery_drops_stored_history (numberToString : number -> jsstring) :
  combinedQuery numberToString (jstr "and then?")
    [userTurn (jstr "what is duty?"); modelTurn (jstr "act without attachment")]
  = [SP; LF; SP] ++ jstr "and then?"
  /\ combinedQuery numberToString (jstr "and then?")
       [userTurn (jstr "what is duty?"); modelTurn (jstr "act without attachment")]
     <> jstr "what is duty?" ++ [LF] ++ jstr "act without attachment" ++ [LF]
        ++ jstr "and then?"
  /\ (forall (query : jsstring) (history : list value),
        storedHistory history ->
        combinedQuery numberToString query history = [SP; LF; SP] ++ query).
Proof.
  split; [reflexivity | split; [discriminate |]].
  intros query history Hstored. unfold combinedQuery.
  now rewrite recentHistoryText_stored.
Qed.

(** With entries of the shape the expression reads, the last four texts are
    joined by newlines ahead of the query, and entries without text are
    skipped. *)
Example combinedQuery_parts_object (numberToString : number -> jsstring) :
  let entry t := VObj [(jstr "parts", VObj [(jstr "text", VStr (jstr t))])] in
  combinedQuery numberToString (jstr "q")
    [entry "one"%string; entry "two"%string; entry EmptyString; VNull; entry "five"%string]
  = jstr "two" ++ [LF] ++ jstr "five" ++ [SP; LF; SP] ++ jstr "q".
Proof. reflexivity. Qed.

(** ** Sorting and the retriever *)

Lemma byScoreDescending_before (a b : ScoredChunk) :
  Qle_bool (byScoreDescending a b) 0 = true <-> notBelow a b.
Proof.
  unfold byScoreDescending, notBelow. rewrite Qle_bool_iff. split; intros H; lra.
Qed.

Lemma insertSorted_perm {A : Type} (cmp : A -> A -> Q) (x : A) (l : list A) :
  Permutation (insertSorted cmp x l) (x :: l).
Proof.
  induction l as [| y l IH]; simpl; [reflexivity |].
  destruct (Qle_bool (cmp x y) 0); [reflexivity |].
  rewrite IH. apply perm_swap.
Qed.

Lemma arraySort_perm {A : Type} (cmp : A -> A -> Q) (l : list A) :
  Permutation (arraySort cmp l) l.
Proof.
  induction l as [| x l IH]; simpl; [reflexivity |].
  rewrite insertSorted_perm. now apply perm_skip.
Qed.

Lemma insertSorted_descending (x : ScoredChunk) (l : list ScoredChunk) :
  StronglySorted notBelow l ->
  StronglySorted notBelow (insertSorted byScoreDescending x l).
Proof.
  induction 1 as [| y l Hsorted IH Hall]; simpl.
  - repeat constructor.
  - destruct (Qle_bool (byScoreDescending x y) 0) eqn:Hcmp.
    + apply byScoreDescending_before in Hcmp.
      constructor; [now constructor |].
      constructor; [exact Hcmp |].
      eapply Forall_impl; [exact Hall |].
      unfold notBelow in *. intros z Hz. lra.
    + constructor; [exact IH |].
      assert (Hxy : notBelow y x).
      { unfold notBelow. destruct (Qlt_le_dec (score y) (score x)) as [Hlt | Hle]; [| exact Hle].
        assert (Hb : notBelow x y) by (unfold notBelow; lra).
        apply byScoreDescending_before in Hb. congruence. }
      rewrite List.Forall_forall in *. intros z Hz.
      apply (Permutation_in _ (insertSorted_perm byScoreDescending x l)) in Hz.
      destruct Hz as [<- | Hz]; [exact Hxy | now apply Hall].
Qed.

Lemma arraySort_descending (l : list ScoredChunk) :
  StronglySorted notBelow (arraySort byScoreDescending l).
Proof.
  induction l as [| x l IH]; simpl; [constructor | now apply insertSorted_descending].
Qed.

(** Stability: the chunks of any one score keep their order. *)
Lemma insertSorted_stable (v : Q) (x : ScoredChunk) (l : list ScoredChunk) :
  List.filter (fun c => Qeq_bool (score c) v) (insertSorted byScoreDescending x l)
  = List.filter (fun c => Qeq_bool (score c) v) (x :: l).
Proof.
  induction l as [| y l IH]; [reflexivity |].
  simpl insertSorted. destruct (Qle_bool (byScoreDescending x y) 0) eqn:Hcmp; [reflexivity |].
  assert (Hlt : (score x < score y)%Q).
  { destruct (Qlt_le_dec (score x) (score y)) as [Hlt | Hle]; [exact Hlt |].
    assert (Hb : notBelow x y) by exact Hle.
    apply byScoreDescending_before in Hb. congruence. }
  simpl in *. rewrite IH.
  destruct (Qeq_bool (score y) v) eqn:Hy; [| reflexivity].
  destruct (Qeq_bool (score x) v) eqn:Hx; [| reflexivity].
  apply Qeq_bool_iff in Hy, Hx. lra.
Qed.

Lemma arraySort_stable (v : Q) (l : list ScoredChunk) :
  List.filter (fun c => Qeq_bool (score c) v) (arraySort byScoreDescending l)
  = List.filter (fun c => Qeq_bool (score c) v) l.
Proof.
  induction l as [| x l IH]; [reflexivity |].
  simpl arraySort. rewrite insertSorted_stable. simpl. now rewrite IH.
Qed.

(** Two arrangements in non-increasing order of score that list the chunks of
    every score in the same order are the same arrangement: the result of a
    stable sort is determined, whatever the algorithm. *)
Lemma stable_descending_unique (l1 : list ScoredChunk) :
  forall l2,
    StronglySorted notBelow l1 -> StronglySorted notBelow l2 ->
    (forall v, List.filter (fun c => Qeq_bool (score c) v) l1
               = List.filter (fun c => Qeq_bool (score c) v) l2) ->
    l1 = l2.
Proof.
  induction l1 as [| a l1 IH]; intros l2 Hs1 Hs2 Hsame.
  - destruct l2 as [| b l2]; [reflexivity |].
    specialize (Hsame (score b)). simpl in Hsame.
    rewrite (proj2 (Qeq_bool_iff _ _) (Qeq_refl (score b))) in Hsame. discriminate.
  - destruct l2 as [| b l2].
    + specialize (Hsame (score a)). simpl in Hsame.
      rewrite (proj2 (Qeq_bool_iff _ _) (Qeq_refl (score a))) in Hsame. discriminate.
    + inversion Hs1 as [| a' l1' Hs1' Ha]; subst.
      inversion Hs2 as [| b' l2' Hs2' Hb]; subst.
      assert (Hin : forall (x : ScoredChunk) (l l' : list ScoredChunk),
                 List.filter (fun c => Qeq_bool (score c) (score x)) (x :: l)
                 = List.filter (fun c => Qeq_bool (score c) (score x)) l' -> In x l').
      { intros x l l' E. simpl in E.
        rewrite (proj2 (Qeq_bool_iff _ _) (Qeq_refl (score x))) in E.
        assert (Hx : In x (List.filter (fun c => Qeq_bool (score c) (score x)) l'))
          by (rewrite <- E; now left).
        now apply List.filter_In in Hx. }
      assert (Hba : notBelow a b).
      { destruct (Hin b l2 (a :: l1) (eq_sym (Hsame (score b)))) as [<- | Hb1].
        - unfold notBelow. lra.
        - rewrite List.Forall_forall in Ha. now apply Ha. }
      assert (Hab : notBelow b a).
      { destruct (Hin a l1 (b :: l2) (Hsame (score a))) as [<- | Ha2].
        - unfold notBelow. lra.
        - rewrite List.Forall_forall in Hb. now apply Hb. }
      assert (Heq : Qeq_bool (score b) (score a) = true)
        by (apply Qeq_bool_iff; unfold notBelow in *; lra).
      assert (a = b).
      { specialize (Hsame (score a)). simpl in Hsame.
        rewrite (proj2 (Qeq_bool_iff _ _) (Qeq_refl (score a))), Heq in Hsame.
        congruence. }
      subst b. f_equal. apply IH; trivial.
      intros v. specialize (Hsame v). simpl in Hsame.
      destruct (Qeq_bool (score a) v); congruence.
Qed.

(** So [arraySort] returns what any stable sort by this comparator returns. *)
Lemma arraySort_determined (l sorted : list ScoredChunk) :
  StronglySorted notBelow sorted ->
  (forall v, List.filter (fun c => Qeq_bool (score c) v) sorted
             = List.filter (fun c => Qeq_bool (score c) v) l) ->
  sorted = arraySort byScoreDescending l.
Proof.
  intros Hsorted Hstable. apply stable_descending_unique.
  - exact Hsorted.
  - apply arraySort_descending.
  - intros v. now rewrite Hstable, arraySort_stable.
Qed.

Lemma arraySlice_prefix {A : Type} (l : list A) (k : Z) :
  0 < k -> arraySlice l 0 k = firstn (Z.to_nat k) l.
Proof.
  intros Hk. unfold arraySlice, relativeIndex.
  replace (0 <? 0) with false by reflexivity.
  destruct (Z.ltb_spec k 0); [lia |].
  replace (Z.min 0 (Z.of_nat (length l))) with 0 by lia.
  change (skipn (Z.to_nat 0) l) with l. rewrite Z.sub_0_r.
  destruct (Z_le_gt_dec k (Z.of_nat (length l))).
  - now replace (Z.min k (Z.of_nat (length l))) with k by lia.
  - replace (Z.min k (Z.of_nat (length l))) with (Z.of_nat (length l)) by lia.
    rewrite Nat2Z.id, firstn_all. symmetry. apply firstn_all2. lia.
Qed.

(** *** Sorting the store by a key, highest first *)

Section SortByKey.
Context {A : Type} (key : A -> Q).

Lemma insertByKey_sorted (x : A) (l : list A) :
  StronglySorted (fun a b => (key b <= key a)%Q) l ->
  StronglySorted (fun a b => (key b <= key a)%Q)
    (insertSorted (fun a b => (key b - key a)%Q) x l).
Proof using Type.
  induction 1 as [| y l Hsorted IH Hall]; simpl.
  - repeat constructor.
  - destruct (Qle_bool (key y - key x)%Q 0) eqn:Hcmp.
    + apply Qle_bool_iff in Hcmp.
      constructor; [now constructor |].
      constructor; [lra |].
      eapply Forall_impl; [exact Hall |].
      intros z Hz. simpl in Hz. lra.
    + constructor; [exact IH |].
      assert (Hxy : (key x <= key y)%Q).
      { destruct (Qlt_le_dec (key y) (key x)) as [Hlt | Hle]; [| exact Hle].
        assert (Hb : Qle_bool (key y - key x)%Q 0 = true) by (apply Qle_bool_iff; lra).
        congruence. }
      rewrite List.Forall_forall in *. intros z Hz.
      apply (Permutation_in _ (insertSorted_perm _ x l)) in Hz.
      destruct Hz as [<- | Hz]; [exact Hxy | now apply Hall].
Qed.

Lemma sortByKey_sorted (l : list A) :
  StronglySorted (fun a b => (key b <= key a)%Q)
    (arraySort (fun a b => (key b - key a)%Q) l).
Proof using Type.
  induction l as [| x l IH]; simpl; [constructor | now apply insertByKey_sorted].
Qed.

Lemma insertByKey_stable (v : Q) (x : A) (l : list A) :
  List.filter (fun c => Qeq_bool (key c) v) (insertSorted (fun a b => (key b - key a)%Q) x l)
  = List.filter (fun c => Qeq_bool (key c) v) (x :: l).
Proof using Type.
  induction l as [| y l IH]; [reflexivity |].
  simpl insertSorted. destruct (Qle_bool (key y - key x)%Q 0) eqn:Hcmp; [reflexivity |].
  assert (Hlt : (key x < key y)%Q).
  { destruct (Qlt_le_dec (key x) (key y)) as [Hlt | Hle]; [exact Hlt |].
    assert (Hb : Qle_bool (key y - key x)%Q 0 = true) by (apply Qle_bool_iff; lra).
    congruence. }
  simpl in *. rewrite IH.
  destruct (Qeq_bool (key y) v) eqn:Hy; [| reflexivity].
  destruct (Qeq_bool (key x) v) eqn:Hx; [| reflexivity].
  apply Qeq_bool_iff in Hy, Hx. lra.
Qed.

Lemma sortByKey_stable (v : Q) (l : list A) :
  List.filter (fun c => Qeq_bool (key c) v) (arraySort (fun a b => (key b - key a)%Q) l)
  = List.filter (fun c => Qeq_bool (key c) v) l.
Proof using Type.
  induction l as [| x l IH]; [reflexivity |].
  simpl arraySort. rewrite insertByKey_stable. simpl. now rewrite IH.
Qed.
End SortByKey.

(** Sorting the images is sorting by the comparator read through the map. *)
Lemma insertSorted_map {A B : Type} (f : A -> B) (cmp : B -> B -> Q) (x : A) (l : list A) :
  insertSorted cmp (f x) (map f l)
  = map f (insertSorted (fun a b => cmp (f a) (f b)) x l).
Proof.
  induction l as [| y l IH]; [reflexivity |].
  simpl. destruct (Qle_bool (cmp (f x) (f y)) 0); [reflexivity |].
  simpl. now rewrite IH.
Qed.

Lemma arraySort_map {A B : Type} (f : A -> B) (cmp : B -> B -> Q) (l : list A) :
  arraySort cmp (map f l) = map f (arraySort (fun a b => cmp (f a) (f b)) l).
Proof.
  induction l as [| x l IH]; [reflexivity |].
  simpl. now rewrite IH, insertSorted_map.
Qed.

Lemma arraySlice_map {A B : Type} (f : A -> B) (l : list A) (start finish : Z) :
  arraySlice (map f l) start finish = map f (arraySlice l start finish).
Proof. unfold arraySlice. now rewrite length_map, skipn_map, firstn_map. Qed.

Lemma falsy_values (v : value) :
  truthy v = false
  <-> v = VUndefined \/ v = VNull \/ v = VBool false
      \/ (exists q, v = VNum (NFin q) /\ (q == 0)%Q)
      \/ v = VNum NNaN \/ v = VStr [].
Proof.
  split.
  - destruct v as [| | [|] | [q | neg |] | s | elems | props]; simpl; intros H;
      try discriminate H; auto 10.
    + right. right. right. left. exists q. split; [reflexivity |].
      apply Qeq_bool_iff. now destruct (Qeq_bool q 0).
    + right. right. right. right. right. f_equal.
      unfold jsstring_eqb in H. apply negb_false_iff, bool_decide_eq_true in H. exact H.
  - intros [-> | [-> | [-> | [(q & -> & Hq) | [-> | ->]]]]]; simpl; trivial.
    apply Qeq_bool_iff in Hq. now rewrite Hq.
Qed.

Section ServerFacts.
Variable numberToString : number -> jsstring.
Variable cosineSimilarity : list Q -> list Q -> Q.
Variable embedContent : jsstring -> TaskType -> option (list Q).
Variable sendMessage :
  list value -> GenerationConfig -> jsstring -> Generation * list value.
Variable nonStringKey : value -> option jsstring.
Variable pdfChunksWithEmbeddings : list Chunk.

Abbreviation retrieve :=
  (retrieveRelevantChunksVector numberToString cosineSimilarity embedContent
     pdfChunksWithEmbeddings).
Abbreviation handler :=
  (chatHandler numberToString cosineSimilarity embedContent sendMessage nonStringKey
     pdfChunksWithEmbeddings).
Abbreviation turn :=
  (chatTurn numberToString cosineSimilarity embedContent sendMessage nonStringKey
     pdfChunksWithEmbeddings).
Abbreviation top := (topScored cosineSimilarity pdfChunksWithEmbeddings).
Abbreviation scored := (scoredChunks cosineSimilarity pdfChunksWithEmbeddings).
Abbreviation keyOf := (sessionKey nonStringKey).
Abbreviation printed := (toStr numberToString).
(** The store sorted by the score of its chunks against a query vector. *)
Abbreviation ranking queryEmbedding :=
  (arraySort (fun a b : Chunk => (cosineSimilarity queryEmbedding (embedding b)
                                  - cosineSimilarity queryEmbedding (embedding a))%Q)
     pdfChunksWithEmbeddings).

Lemma scored_length (queryEmbedding : list Q) :
  length (scored queryEmbedding) = length pdfChunksWithEmbeddings.
Proof using Type. unfold scoredChunks. apply length_map. Qed.

(** The scored chunks in their sorted order are the chunks of the store in
    the order of their scores. *)
Lemma scored_sorted (queryEmbedding : list Q) :
  arraySort byScoreDescending (scored queryEmbedding)
  = map (fun chunk => {| itemText := text chunk;
                         score := cosineSimilarity queryEmbedding (embedding chunk) |})
        (ranking queryEmbedding).
Proof using Type. unfold scoredChunks. now rewrite arraySort_map. Qed.

Lemma top_texts (queryEmbedding : list Q) (topK : Z) :
  map itemText (top queryEmbedding topK)
  = map text (arraySlice (ranking queryEmbedding) 0 topK).
Proof using Type.
  unfold topScored. rewrite scored_sorted, arraySlice_map, map_map. reflexivity.
Qed.

(** The retriever, step by step. *)
Lemma retrieve_steps (query : jsstring) (history : list value) (topK : Z) (w : World) :
  retrieve query history topK w =
  match pdfChunksWithEmbeddings with
  | [] => (Ok [], w)
  | _ :: _ =>
      let w1 := {| sessionCache := sessionCache w;
                   calls := calls w
                            ++ [CallEmbed (combinedQuery numberToString query history)
                                  RETRIEVAL_QUERY] |} in
      match embedContent (combinedQuery numberToString query history) RETRIEVAL_QUERY with
      | Some queryEmbedding => (Ok (map itemText (top queryEmbedding topK)), w1)
      | None => (Thrown, w1)
      end
  end.
Proof using Type.
  unfold retrieveRelevantChunksVector.
  destruct pdfChunksWithEmbeddings as [| c store]; [reflexivity |].
  simpl length. simpl Nat.eqb. cbv iota.
  unfold embed, bind, logCall, ret, throw. cbv zeta.
  now destruct (embedContent _ _).
Qed.

(** C6: with a positive [topK] and a non-empty store, once the query is
    embedded the retriever returns the texts of the first
    [min topK (length of the store)] chunks of the store as rearranged in
    non-increasing order of their score [cosineSimilarity(queryEmbedding,
    chunk.embedding)], the chunks of equal score keeping their store
    order. *)
Theorem retrieve_top_chunks (query : jsstring) (history : list value) (topK : Z)
    (queryEmbedding : list Q) (w : World) :
  0 < topK ->
  pdfChunksWithEmbeddings <> [] ->
  embedContent (combinedQuery numberToString query history) RETRIEVAL_QUERY
    = Some queryEmbedding ->
  exists ranked : list Chunk,
    Permutation ranked pdfChunksWithEmbeddings
    /\ StronglySorted
         (fun a b => (cosineSimilarity queryEmbedding (embedding b)
                      <= cosineSimilarity queryEmbedding (embedding a))%Q) ranked
    /\ (forall v,
          List.filter (fun c => Qeq_bool (cosineSimilarity queryEmbedding (embedding c)) v)
            ranked
          = List.filter (fun c => Qeq_bool (cosineSimilarity queryEmbedding (embedding c)) v)
              pdfChunksWithEmbeddings)
    /\ fst (retrieve query history topK w)
       = Ok (map text (firstn (Z.to_nat topK) ranked))
    /\ length (map text (firstn (Z.to_nat topK) ranked))
       = Nat.min (Z.to_nat topK) (length pdfChunksWithEmbeddings).
Proof using Type.
  intros Hk Hstore Hembed.
  exists (ranking queryEmbedding). split; [| split; [| split; [| split]]].
  - apply arraySort_perm.
  - apply (sortByKey_sorted (fun c => cosineSimilarity queryEmbedding (embedding c))).
  - intros v.
    apply (sortByKey_stable (fun c => cosineSimilarity queryEmbedding (embedding c))).
  - rewrite retrieve_steps.
    destruct pdfChunksWithEmbeddings as [| c store] eqn:Estore; [congruence |].
    cbv zeta. rewrite Hembed. simpl fst. f_equal.
    rewrite <- Estore, top_texts. now rewrite arraySlice_prefix.
  - rewrite length_map, length_firstn.
    now rewrite (Permutation_length (arraySort_perm _ _)).
Qed.

(** *** The handler *)

Lemma retrieve_keeps_sessions (query : jsstring) (history : list value) (topK : Z)
    (w : World) :
  sessionCache (snd (retrieve query history topK w)) = sessionCache w.
Proof using Type.
  rewrite retrieve_steps. destruct pdfChunksWithEmbeddings; [reflexivity |].
  cbv zeta. now destruct (embedContent _ _).
Qed.

(** The handler, step by step: the reply and the world it leaves. *)
Lemma handler_steps (req : ChatBody) (w : World) :
  handler req w =
  if negb (truthy (sessionId req)) || negb (truthy (prompt req)) then (badRequest, w)
  else
    match keyOf (sessionId req) with
    | None => (internalError, w)
    | Some key =>
        if printable (prompt req) then
          match retrieve (printed (prompt req)) (default [] (sessionCache w !! key)) 3 w with
          | (Thrown, w1) => (internalError, w1)
          | (Ok chunks, w1) =>
              let message :=
                fullPrompt (joinStrings separator chunks) (printed (prompt req)) in
              let w2 := {| sessionCache := sessionCache w1;
                           calls := calls w1
                                    ++ [CallGenerate (default [] (sessionCache w !! key))
                                          generationConfig message] |} in
              match sendMessage (default [] (sessionCache w !! key)) generationConfig
                      message with
              | (GenRejected, _) => (internalError, w2)
              | (GenNoText, history) =>
                  (okResponse clarification,
                   {| sessionCache :=
                        <[key := history ++ [turnOf (jstr "user") (prompt req);
                                             modelTurn clarification]]> (sessionCache w1);
                      calls := calls w2 |})
              | (GenText text, history) =>
                  let finalText :=
                    if 0 <? strlen (trim text) then text else clarification in
                  (okResponse finalText,
                   {| sessionCache :=
                        <[key := history ++ [turnOf (jstr "user") (prompt req);
                                             modelTurn finalText]]> (sessionCache w1);
                      calls := calls w2 |})
              end
          end
        else (internalError, w)
    end.
Proof using Type.
  unfold chatHandler.
  destruct (negb (truthy (sessionId req)) || negb (truthy (prompt req))); [reflexivity |].
  unfold tryCatch, chatTurn, bind, cacheGet, cacheSet, templateText, ret, throw.
  destruct (keyOf (sessionId req)) as [key |] eqn:Hkey; [| reflexivity].
  destruct (printable (prompt req)); [| reflexivity].
  destruct (retrieve _ _ 3 w) as [[chunks |] w1]; [| reflexivity].
  unfold generate, bind, logCall, ret, throw. cbv zeta.
  destruct (sendMessage _ _ _) as [[| | text] history]; simpl; rewrite ?Hkey; reflexivity.
Qed.

(** A request answered with status 200, taken apart: [text] is what
    [result?.response?.text?.() ?? ''] came to. *)
Lemma handler_ok_inv (req : ChatBody) (w : World) :
  status (fst (handler req w)) = 200 ->
  exists key chunks w1 text history,
    truthy (sessionId req) = true /\ truthy (prompt req) = true
    /\ keyOf (sessionId req) = Some key /\ printable (prompt req) = true
    /\ retrieve (printed (prompt req)) (default [] (sessionCache w !! key)) 3 w
       = (Ok chunks, w1)
    /\ (sendMessage (default [] (sessionCache w !! key)) generationConfig
          (fullPrompt (joinStrings separator chunks) (printed (prompt req)))
        = (GenText text, history)
        \/ (sendMessage (default [] (sessionCache w !! key)) generationConfig
              (fullPrompt (joinStrings separator chunks) (printed (prompt req)))
            = (GenNoText, history) /\ text = []))
    /\ handler req w
       = (okResponse (if 0 <? strlen (trim text) then text else clarification),
          {| sessionCache :=
               <[key := history
                        ++ [turnOf (jstr "user") (prompt req);
                            modelTurn (if 0 <? strlen (trim text) then text
                                       else clarification)]]> (sessionCache w);
             calls := calls w1
                      ++ [CallGenerate (default [] (sessionCache w !! key)) generationConfig
                            (fullPrompt (joinStrings separator chunks)
                               (printed (prompt req)))] |}).
Proof using Type.
  rewrite handler_steps.
  destruct (truthy (sessionId req)) eqn:Hsid; [| discriminate].
  destruct (truthy (prompt req)) eqn:Hp; [| discriminate]. simpl orb. cbv iota.
  destruct (keyOf (sessionId req)) as [key |] eqn:Hkey; [| discriminate].
  destruct (printable (prompt req)) eqn:Hprint; [| discriminate].
  pose proof (retrieve_keeps_sessions (printed (prompt req))
                (default [] (sessionCache w !! key)) 3 w) as Hkeep.
  destruct (retrieve _ _ 3 w) as [[chunks |] w1] eqn:Hret; [| discriminate].
  simpl in Hkeep. cbv zeta.
  destruct (sendMessage _ _ _) as [[| | text] history] eqn:Hgen; [discriminate | |];
    intros _.
  - exists key, chunks, w1, [], history. rewrite Hkeep.
    repeat split; trivial. right. now split.
  - exists key, chunks, w1, text, history. rewrite Hkeep.
    repeat split; trivial. now left.
Qed.

(** A request with any other status leaves the cache as it was. *)
Lemma handler_not_ok (req : ChatBody) (w : World) :
  status (fst (handler req w)) <> 200 ->
  (fst (handler req w) = badRequest /\ snd (handler req w) = w
   \/ fst (handler req w) = internalError)
  /\ sessionCache (snd (handler req w)) = sessionCache w.
Proof using Type.
  rewrite handler_steps.
  destruct (negb (truthy (sessionId req)) || negb (truthy (prompt req))); [simpl; auto |].
  destruct (keyOf (sessionId req)) as [key |]; [| simpl; auto].
  destruct (printable (prompt req)); [| simpl; auto].
  pose proof (retrieve_keeps_sessions (printed (prompt req))
                (default [] (sessionCache w !! key)) 3 w) as Hkeep.
  destruct (retrieve _ _ 3 w) as [[chunks |] w1]; simpl in Hkeep; [| simpl; auto].
  cbv zeta. destruct (sendMessage _ _ _) as [[| | text] history]; simpl; auto;
    intros H; now contradiction H.
Qed.

(** C7: when the embedding call or the generation call of a request fails,
    the reply is the 500 response with its JSON error body, and the session
    cache is what it was before the request. *)
Theorem chat_collaborator_failure (req : ChatBody) (key : jsstring) (w : World) :
  truthy (sessionId req) = true -> truthy (prompt req) = true ->
  keyOf (sessionId req) = Some key -> printable (prompt req) = true ->
  (pdfChunksWithEmbeddings <> []
     /\ embedContent (combinedQuery numberToString (printed (prompt req))
                        (default [] (sessionCache w !! key)))
          RETRIEVAL_QUERY = None)
  \/ (exists chunks w1,
        retrieve (printed (prompt req)) (default [] (sessionCache w !! key)) 3 w
        = (Ok chunks, w1)
        /\ fst (sendMessage (default [] (sessionCache w !! key)) generationConfig
                  (fullPrompt (joinStrings separator chunks) (printed (prompt req))))
           = GenRejected) ->
  fst (handler req w)
    = {| status := 500;
         body := VObj [(jstr "error", VStr (jstr "An internal server error occurred."))] |}
  /\ sessionCache (snd (handler req w)) = sessionCache w.
Proof using Type.
  intros Hsid Hp Hkey Hprint Hfail.
  assert (Hstatus : status (fst (handler req w)) = 500).
  { rewrite handler_steps, Hsid, Hp, Hkey, Hprint. simpl orb. cbv iota.
    destruct Hfail as [[Hstore Hembed] | (chunks & w1 & Hret & Hgen)].
    - rewrite retrieve_steps.
      destruct pdfChunksWithEmbeddings as [| c store]; [congruence |].
      cbv zeta. now rewrite Hembed.
    - rewrite Hret. cbv zeta. destruct (sendMessage _ _ _) as [g history].
      simpl in Hgen. now subst g. }
  destruct (handler_not_ok req w) as [[[Hbad _] | Herr] Hcache];
    [rewrite Hstatus; discriminate | | ].
  - rewrite Hbad in Hstatus. discriminate Hstatus.
  - split; [exact Herr | exact Hcache].
Qed.

(** C9 (as amended): a request whose [sessionId] or [prompt] is falsy, which
    is to say missing, [null], [false], zero, NaN or the empty string, gets
    status 400 with the body [{error: "sessionId and prompt are required"}],
    and neither the session cache nor a collaborator is touched; a request
    whose two fields are truthy does not get status 400. *)
Theorem chat_validation (req : ChatBody) (w : World) :
  (truthy (sessionId req) = false \/ truthy (prompt req) = false ->
   handler req w
   = ({| status := 400;
         body := VObj [(jstr "error", VStr (jstr "sessionId and prompt are required"))] |},
      w))
  /\ (truthy (sessionId req) = true -> truthy (prompt req) = true ->
      status (fst (handler req w)) <> 400)
  /\ (forall field : value,
        truthy field = false
        <-> field = VUndefined \/ field = VNull \/ field = VBool false
            \/ (exists q, field = VNum (NFin q) /\ (q == 0)%Q)
            \/ field = VNum NNaN \/ field = VStr []).
Proof using Type.
  split; [| split].
  - intros H. unfold chatHandler.
    destruct H as [H | H]; rewrite H; simpl; rewrite ?orb_true_r; reflexivity.
  - intros Hsid Hp.
    destruct (Z.eq_dec (status (fst (handler req w))) 200) as [E | E]; [lia |].
    destruct (handler_not_ok req w E) as [[[Hbad _] | Herr] _].
    + exfalso. rewrite handler_steps, Hsid, Hp in Hbad. simpl orb in Hbad.
      cbv iota in Hbad.
      destruct (keyOf (sessionId req)); [| discriminate Hbad].
      destruct (printable (prompt req)); [| discriminate Hbad].
      destruct (retrieve _ _ 3 w) as [[chunks |] w1]; [| discriminate Hbad].
      cbv zeta in Hbad.
      destruct (sendMessage _ _ _) as [[| | text] history]; discriminate Hbad.
    + rewrite Herr. discriminate.
  - apply falsy_values.
Qed.

(** What a request answered with status 200 stores. *)
Lemma handler_stores (req : ChatBody) (w : World) :
  status (fst (handler req w)) = 200 ->
  exists key chunks finalText user model,
    keyOf (sessionId req) = Some key
    /\ body (fst (handler req w)) = VObj [(jstr "response", VStr finalText)]
    /\ fst (retrieve (printed (prompt req)) (default [] (sessionCache w !! key)) 3 w)
       = Ok chunks
    /\ sessionCache (snd (handler req w)) !! key
       = Some (snd (sendMessage (default [] (sessionCache w !! key)) generationConfig
                      (fullPrompt (joinStrings separator chunks) (printed (prompt req))))
               ++ [user; model])
    /\ turnRole user = VStr (jstr "user") /\ turnFirstText user = prompt req
    /\ turnRole model = VStr (jstr "model") /\ turnFirstText model = VStr finalText
    /\ (forall other, other <> key ->
          sessionCache (snd (handler req w)) !! other = sessionCache w !! other).
Proof using Type.
  intros Hstatus.
  destruct (handler_ok_inv req w Hstatus)
    as (key & chunks & w1 & text & history & _ & _ & Hkey & _ & Hret & Hgen & ->).
  exists key, chunks, (if 0 <? strlen (trim text) then text else clarification),
    (turnOf (jstr "user") (prompt req)),
    (modelTurn (if 0 <? strlen (trim text) then text else clarification)).
  rewrite Hret. simpl fst. simpl snd. simpl sessionCache.
  repeat split; trivial.
  - rewrite lookup_insert_eq.
    destruct Hgen as [-> | [-> _]]; reflexivity.
  - intros other Hother. now apply lookup_insert_ne.
Qed.

End ServerFacts.

(** ** The scenarios, run *)

Lemma retrieve_top_chunks_witness :
  exists ranked : list Chunk,
    Permutation ranked sampleStore
    /\ StronglySorted
         (fun a b => (dot unitY (embedding b) <= dot unitY (embedding a))%Q) ranked
    /\ (forall v,
          List.filter (fun c => Qeq_bool (dot unitY (embedding c)) v) ranked
          = List.filter (fun c => Qeq_bool (dot unitY (embedding c)) v) sampleStore)
    /\ fst (retrieveRelevantChunksVector printNothing dot (fun _ _ => Some unitY) sampleStore
              (jstr "who am I?") [] 1 emptyWorld)
       = Ok (map text (firstn (Z.to_nat 1) ranked))
    /\ length (map text (firstn (Z.to_nat 1) ranked))
       = Nat.min (Z.to_nat 1) (length sampleStore).
Proof.
  apply (retrieve_top_chunks printNothing dot (fun _ _ => Some unitY) sampleStore
           (jstr "who am I?") [] 1 unitY emptyWorld
           ltac:(lia) ltac:(discriminate) eq_refl).
Defined.

(** The chunk of the highest score comes first, wherever it stands in the
    store; chunks of one score come in their store order. *)
Example retrieve_by_score :
  fst (retrieveRelevantChunksVector printNothing dot (fun _ _ => Some unitY) sampleStore
         (jstr "who am I?") [] 1 emptyWorld)
  = Ok [jstr "the nature of the self"]
  /\ fst (retrieveRelevantChunksVector printNothing dot (fun _ _ => Some unitY) sampleStore
            (jstr "who am I?") [] 3 emptyWorld)
     = Ok [jstr "the nature of the self"; jstr "duty without attachment"]
  /\ fst (retrieveRelevantChunksVector printNothing dot (fun _ _ => Some [0%Q; 0%Q])
            sampleStore (jstr "who am I?") [] 3 emptyWorld)
     = Ok [jstr "duty without attachment"; jstr "the nature of the self"].
Proof. repeat split. Qed.

Lemma chat_collaborator_failure_witness :
  fst (chatHandler printNothing dot (fun _ _ => None) (replying (jstr "act"))
         stringKeysOnly sampleStore sampleRequest emptyWorld)
  = {| status := 500;
       body := VObj [(jstr "error", VStr (jstr "An internal server error occurred."))] |}
  /\ sessionCache (snd (chatHandler printNothing dot (fun _ _ => None)
                      (replying (jstr "act")) stringKeysOnly sampleStore sampleRequest
                      emptyWorld))
     = sessionCache emptyWorld.
Proof.
  apply (chat_collaborator_failure printNothing dot (fun _ _ => None)
           (replying (jstr "act")) stringKeysOnly sampleStore sampleRequest
           (jstr "s1") emptyWorld);
    try reflexivity.
  left. split; [discriminate | reflexivity].
Defined.

Lemma chat_validation_witness :
  chatHandler printNothing dot (fun _ _ => Some unitX) (replying (jstr "act"))
    stringKeysOnly sampleStore
    {| sessionId := VStr (jstr "s1"); prompt := VUndefined |} emptyWorld
  = ({| status := 400;
        body := VObj [(jstr "error", VStr (jstr "sessionId and prompt are required"))] |},
     emptyWorld).
Proof.
  apply (proj1 (chat_validation printNothing dot (fun _ _ => Some unitX)
                  (replying (jstr "act")) stringKeysOnly sampleStore
                  {| sessionId := VStr (jstr "s1"); prompt := VUndefined |} emptyWorld)).
  right. reflexivity.
Defined.

(** C9 as stated fails: a request that brings both fields, [sessionId] the
    number 0 or [prompt] the boolean [false], is rejected with status 400. *)
Lemma chat_rejects_present_fields :
  fst (chatHandler printNothing dot (fun _ _ => Some unitX) (replying (jstr "act"))
         stringKeysOnly sampleStore
         {| sessionId := VNum (NFin 0); prompt := VStr (jstr "what is duty?") |} emptyWorld)
  = {| status := 400;
       body := VObj [(jstr "error", VStr (jstr "sessionId and prompt are required"))] |}
  /\ fst (chatHandler printNothing dot (fun _ _ => Some unitX) (replying (jstr "act"))
            stringKeysOnly sampleStore
            {| sessionId := VStr (jstr "s1"); prompt := VBool false |} emptyWorld)
     = {| status := 400;
          body := VObj [(jstr "error", VStr (jstr "sessionId and prompt are required"))] |}
  /\ VNum (NFin 0) <> VUndefined /\ VBool false <> VUndefined.
Proof. repeat split; discriminate. Qed.

(** Scenario 3: an empty generation is replaced by the clarification request,
    and that text is the one stored. *)
Example chat_empty_generation :
  let run := chatHandler printNothing dot (fun _ _ => Some unitX)
               (replying [SP; LF]) stringKeysOnly sampleStore sampleRequest emptyWorld in
  fst run = okResponse clarification
  /\ sessionCache (snd run) !! jstr "s1"
     = Some [userTurn (jstr "what is duty?"); modelTurn clarification].
Proof.
  split; [reflexivity |].
  cbv zeta. rewrite handler_steps. simpl. apply lookup_insert_eq.
Qed.

(** C10 (the code at the claim's input): the first request of a session,
    served by a chat session that pushes the message it is sent and its
    reply onto the history array it was started on, is answered with status
    200 and stores four turns, not two: the full prompt and the reply, then
    the prompt and the reply.  For every request and every generation
    service, what a request answered with status 200 stores is the array as
    the generation call left it, followed by a user turn that holds the
    prompt and a model turn that holds the text sent back, the other
    sessions being as they were: two turns are appended to the history found
    only when the call left the array alone. *)
Theorem chat_success_stored_turns :
  (let run := chatHandler printNothing dot (fun _ _ => Some unitX)
                (pushingReply (jstr "act without attachment")) stringKeysOnly sampleStore
                sampleRequest emptyWorld in
   status (fst run) = 200
   /\ body (fst run) = VObj [(jstr "response", VStr (jstr "act without attachment"))]
   /\ sessionCache emptyWorld !! jstr "s1" = None
   /\ exists stored,
        sessionCache (snd run) !! jstr "s1" = Some stored
        /\ length stored = 4%nat
        /\ map turnRole stored
           = [VStr (jstr "user"); VStr (jstr "model");
              VStr (jstr "user"); VStr (jstr "model")]
        /\ map turnFirstText stored
           = [VStr (fullPrompt
                      (jstr "duty without attachment" ++ separator
                       ++ jstr "the nature of the self")
                      (jstr "what is duty?"));
              VStr (jstr "act without attachment");
              VStr (jstr "what is duty?");
              VStr (jstr "act without attachment")])
  /\ (forall (numberToString : number -> jsstring)
        (cosineSimilarity : list Q -> list Q -> Q)
        (embedContent : jsstring -> TaskType -> option (list Q))
        (sendMessage : list value -> GenerationConfig -> jsstring
                       -> Generation * list value)
        (nonStringKey : value -> option jsstring)
        (pdfChunksWithEmbeddings : list Chunk) (req : ChatBody) (w : World),
        let run := chatHandler numberToString cosineSimilarity embedContent sendMessage
                     nonStringKey pdfChunksWithEmbeddings req w in
        status (fst run) = 200 ->
        exists key chunks finalText user model,
          sessionKey nonStringKey (sessionId req) = Some key
          /\ body (fst run) = VObj [(jstr "response", VStr finalText)]
          /\ fst (retrieveRelevantChunksVector numberToString cosineSimilarity embedContent
                    pdfChunksWithEmbeddings (toStr numberToString (prompt req))
                    (default [] (sessionCache w !! key)) 3 w)
             = Ok chunks
          /\ sessionCache (snd run) !! key
             = Some (snd (sendMessage (default [] (sessionCache w !! key)) generationConfig
                            (fullPrompt (joinStrings separator chunks)
                               (toStr numberToString (prompt req))))
                     ++ [user; model])
          /\ turnRole user = VStr (jstr "user") /\ turnFirstText user = prompt req
          /\ turnRole model = VStr (jstr "model") /\ turnFirstText model = VStr finalText
          /\ (forall other, other <> key ->
                sessionCache (snd run) !! other = sessionCache w !! other)).
Proof.
  split.
  - cbv zeta. split; [reflexivity | split; [reflexivity | split; [reflexivity |]]].
    eexists. split.
    + rewrite handler_steps. simpl. apply lookup_insert_eq.
    + repeat split; reflexivity.
  - intros numberToString cosineSimilarity embedContent sendMessage nonStringKey store
      req w run. apply handler_stores.
Qed.

(** Fields that are truthy and no strings.  A number is printed into the
    templates and stored as it came; an object with an own [toString] cannot
    be printed, and a key the cache refuses cannot be looked up: both
    requests get the 500 reply, and no call is made. *)
Example chat_other_values :
  let handle := chatHandler (fun _ => jstr "42") dot (fun _ _ => Some unitX)
                  (replying (jstr "act")) stringKeysOnly [] in
  (exists stored,
     sessionCache (snd (handle {| sessionId := VStr (jstr "s1");
                                  prompt := VNum (NFin 42) |} emptyWorld)) !! jstr "s1"
     = Some stored
     /\ map turnFirstText stored = [VNum (NFin 42); VStr (jstr "act")]
     /\ calls (snd (handle {| sessionId := VStr (jstr "s1");
                              prompt := VNum (NFin 42) |} emptyWorld))
        = [CallGenerate [] generationConfig (fullPrompt [] (jstr "42"))])
  /\ handle {| sessionId := VStr (jstr "s1");
               prompt := VObj [(jstr "toString", VNum (NFin 1))] |} emptyWorld
     = (internalError, emptyWorld)
  /\ handle {| sessionId := VBool true; prompt := VStr (jstr "what is duty?") |} emptyWorld
     = (internalError, emptyWorld).
Proof.
  cbv zeta. split; [| split; reflexivity].
  eexists. split; [rewrite handler_steps; simpl; apply lookup_insert_eq |].
  split; reflexivity.
Qed.

(** The embedding call of a second request of a session: its content is the
    bare query, the turns stored by the first request add nothing. *)
Example chat_second_request_call :
  let w1 := snd (chatHandler printNothing dot (fun _ _ => Some unitX)
                   (pushingReply (jstr "act")) stringKeysOnly sampleStore sampleRequest
                   emptyWorld) in
  let w2 := snd (chatHandler printNothing dot (fun _ _ => Some unitX)
                   (pushingReply (jstr "act")) stringKeysOnly sampleStore
                   {| sessionId := VStr (jstr "s1"); prompt := VStr (jstr "and then?") |}
                   {| sessionCache := sessionCache w1; calls := [] |}) in
  hd_error (calls w2) = Some (CallEmbed ([SP; LF; SP] ++ jstr "and then?") RETRIEVAL_QUERY).
Proof. vm_compute. reflexivity. Qed.

(** * Further properties *)

(** ** The shape of the chunks *)

Lemma ceil_div_step (m n : Z) :
  0 < n -> 0 < m -> (m + n - 1) / n = 1 + (Z.max (m - n) 0 + n - 1) / n.
Proof.
  intros Hn Hm. destruct (Z_le_gt_dec n m) as [Hle | Hgt].
  - replace (Z.max (m - n) 0) with (m - n) by lia.
    replace (m + n - 1) with ((m - n + n - 1) + 1 * n) by lia.
    rewrite Z.div_add by lia. lia.
  - replace (Z.max (m - n) 0) with 0 by lia.
    rewrite (Z.div_small (0 + n - 1) n) by lia.
    rewrite Z.add_0_r. symmetry.
    apply Z.div_unique with (r := m - 1); lia.
Qed.

(** The loop again, for the lengths: every chunk pushed is non-empty, every
    chunk but the last has [chunkSize] units, and the number of chunks is the
    rest of the text divided by [chunkSize], rounded up. *)
Lemma chunkLoop_shape (text : jsstring) (n : Z) :
  0 < n ->
  forall (fuel : nat) (i : Z) (acc : list jsstring),
    0 <= i -> Z.max (strlen text - i) 0 < Z.of_nat fuel ->
    exists chunks,
      chunkLoop fuel text n i acc = Some (acc ++ chunks)
      /\ Z.of_nat (length chunks) = (Z.max (strlen text - i) 0 + n - 1) / n
      /\ Forall (fun c => c <> []) chunks
      /\ (forall (k : nat) (c : jsstring), nth_error chunks k = Some c ->
            (S k < length chunks)%nat -> strlen c = n).
Proof.
  intros Hn fuel. induction fuel as [| fuel IH]; intros i acc Hi Hfuel; [lia |].
  simpl. destruct (i <? strlen text) eqn:Htest.
  - apply Z.ltb_lt in Htest.
    destruct (IH (i + n) (acc ++ [substring text i (i + n)]))
      as (rest & Hrun & Hcount & Hne & Hfull); [lia | lia |].
    assert (Hlen : strlen (substring text i (i + n)) = Z.min n (strlen text - i)).
    { rewrite substring_window by lia. unfold strlen in *.
      rewrite length_firstn, length_skipn. lia. }
    exists (substring text i (i + n) :: rest). repeat split.
    + rewrite Hrun, <- app_assoc. reflexivity.
    + simpl length. rewrite Nat2Z.inj_succ, Hcount.
      replace (Z.max (strlen text - i) 0) with (strlen text - i) by lia.
      rewrite (ceil_div_step (strlen text - i) n) by lia.
      replace (strlen text - (i + n)) with (strlen text - i - n) by lia. lia.
    + constructor; [| exact Hne].
      intros Hnil. rewrite Hnil in Hlen. unfold strlen in Hlen at 1. simpl in Hlen. lia.
    + intros [| k] c Hk Hlast; simpl in Hk.
      * injection Hk as <-. rewrite Hlen.
        destruct (Z_le_gt_dec n (strlen text - i)) as [Hle | Hgt]; [lia |].
        exfalso. replace (Z.max (strlen text - (i + n)) 0) with 0 in Hcount by lia.
        rewrite (Z.div_small (0 + n - 1) n) in Hcount by lia.
        simpl in Hlast. lia.
      * apply (Hfull k c Hk). simpl in Hlast. lia.
  - apply Z.ltb_ge in Htest. exists []. rewrite app_nil_r. repeat split.
    + simpl. replace (Z.max (strlen text - i) 0) with 0 by lia.
      now rewrite (Z.div_small (0 + n - 1) n) by lia.
    + constructor.
    + intros [| k] c Hk; discriminate Hk.
Qed.

(** X1: for a positive chunk size, the number of chunks is the length of the
    text divided by the chunk size, rounded up; no chunk is empty; and every
    chunk but the last has exactly [chunkSize] code units. *)
Theorem chunkText_shape (text : jsstring) (chunkSize : Z) :
  0 < chunkSize ->
  exists chunks,
    (forall fuel, (length text < fuel)%nat -> chunkText fuel text chunkSize = Some chunks)
    /\ Z.of_nat (length chunks) = (strlen text + chunkSize - 1) / chunkSize
    /\ Forall (fun c => c <> []) chunks
    /\ (forall (k : nat) (c : jsstring), nth_error chunks k = Some c ->
          (S k < length chunks)%nat -> strlen c = chunkSize).
Proof.
  intros Hn. pose proof (strlen_nonneg text) as Hlen.
  destruct (chunkLoop_shape text chunkSize Hn (S (length text)) 0 [])
    as (chunks & Hrun & Hcount & Hne & Hfull); [lia | unfold strlen; lia |].
  exists chunks. repeat split; trivial.
  - intros fuel Hfuel. unfold chunkText.
    apply chunkLoop_fuel_mono with (fuel := S (length text)); [lia | exact Hrun].
  - rewrite Hcount. do 2 f_equal. lia.
Qed.

Lemma chunkText_shape_witness :
  exists chunks,
    (forall fuel, (length (jstr "abcde") < fuel)%nat ->
                  chunkText fuel (jstr "abcde") 2 = Some chunks)
    /\ Z.of_nat (length chunks) = (strlen (jstr "abcde") + 2 - 1) / 2
    /\ Forall (fun c => c <> []) chunks
    /\ (forall (k : nat) (c : jsstring), nth_error chunks k = Some c ->
          (S k < length chunks)%nat -> strlen c = 2).
Proof. apply (chunkText_shape (jstr "abcde") 2). lia. Defined.

(** ** The form of a sanitized text *)

Lemma sanitizeText_singleSpaced (uniLNPZs : Z -> bool) (x : jsstring) :
  singleSpaced false (sanitizeText uniLNPZs x) = true.
Proof.
  unfold sanitizeText, trim.
  apply trimEnd_singleSpaced. eapply trimStart_singleSpaced.
  apply collapseNewlines_singleSpaced; [congruence |].
  apply collapseBlanks_singleSpaced.
Qed.

Lemma sanitizeText_shortNewlineRuns (uniLNPZs : Z -> bool) (x : jsstring) :
  shortNewlineRuns O (sanitizeText uniLNPZs x) = true.
Proof.
  unfold sanitizeText, trim.
  apply trimEnd_short. eapply trimStart_short. apply collapseNewlines_short.
Qed.

Lemma singleSpaced_no_tab (s : jsstring) :
  forall afterSpace, singleSpaced afterSpace s = true -> ~ In TAB s.
Proof.
  induction s as [| c s IH]; intros afterSpace H; simpl in *; [tauto |].
  destruct (Z.eqb_spec c TAB) as [-> | Hc]; [discriminate |].
  intros [Heq | Hin]; [congruence |].
  destruct (c =? SP).
  - apply andb_true_iff in H as [_ H]. exact (IH _ H Hin).
  - exact (IH _ H Hin).
Qed.

Lemma singleSpaced_no_double (pre post : jsstring) :
  forall afterSpace, singleSpaced afterSpace (pre ++ [SP; SP] ++ post) = false.
Proof.
  induction pre as [| c pre IH]; intros afterSpace; simpl.
  - now rewrite andb_false_r.
  - destruct (c =? TAB); [reflexivity |].
    destruct (c =? SP); [rewrite IH; apply andb_false_r | apply IH].
Qed.

Lemma shortNewlineRuns_no_triple (pre post : jsstring) :
  forall seen, shortNewlineRuns seen (pre ++ [LF; LF; LF] ++ post) = false.
Proof.
  induction pre as [| c pre IH]; intros seen; simpl.
  - now destruct seen as [| [| seen]].
  - destruct (c =? LF); [| apply IH].
    destruct seen as [| [| seen]]; [apply IH | apply IH | reflexivity].
Qed.

Lemma trimEnd_last (s : jsstring) :
  forall pre c, trimEnd s = pre ++ [c] -> isTrimSpace c = false.
Proof.
  induction s as [| d s IH]; intros pre c H; [now destruct pre |].
  simpl in H. destruct (trimEnd s) as [| k kept] eqn:Hkept.
  - destruct (isTrimSpace d) eqn:Hd; [now destruct pre |].
    destruct pre as [| p pre]; [now injection H as <- | ].
    injection H as _ H. now destruct pre.
  - destruct pre as [| p pre]; [discriminate |].
    injection H as _ H. exact (IH pre c H).
Qed.

Lemma trim_first (s : jsstring) (c : codeunit) (rest : jsstring) :
  trim s = c :: rest -> isTrimSpace c = false.
Proof.
  unfold trim. destruct (trimStart_head s) as [-> | (d & tl & -> & Hd)]; [discriminate |].
  rewrite trimEnd_cons_kept by exact Hd. now intros [= <- _].
Qed.

(** X2: a sanitized text neither starts nor ends with white space. *)
Theorem sanitizeText_trimmed (uniLNPZs : Z -> bool) (x : jsstring) :
  (forall c rest, sanitizeText uniLNPZs x = c :: rest -> isTrimSpace c = false)
  /\ (forall pre c, sanitizeText uniLNPZs x = pre ++ [c] -> isTrimSpace c = false).
Proof.
  split.
  - intros c rest H. unfold sanitizeText in H. eapply trim_first, H.
  - intros pre c H. unfold sanitizeText, trim in H. eapply trimEnd_last, H.
Qed.

(** X3: a sanitized text has no tab, no two spaces in a row and no three
    newlines in a row. *)
Theorem sanitizeText_collapsed (uniLNPZs : Z -> bool) (x : jsstring) :
  ~ In TAB (sanitizeText uniLNPZs x)
  /\ (forall pre post, sanitizeText uniLNPZs x <> pre ++ [SP; SP] ++ post)
  /\ (forall pre post, sanitizeText uniLNPZs x <> pre ++ [LF; LF; LF] ++ post).
Proof.
  pose proof (sanitizeText_singleSpaced uniLNPZs x) as Hspaced.
  pose proof (sanitizeText_shortNewlineRuns uniLNPZs x) as Hshort.
  split; [| split].
  - eapply singleSpaced_no_tab, Hspaced.
  - intros pre post E. rewrite E, singleSpaced_no_double in Hspaced. discriminate.
  - intros pre post E. rewrite E, shortNewlineRuns_no_triple in Hshort. discriminate.
Qed.

(** *** Texts that sanitize to nothing *)

Lemma collapseBlanks_spaces (s : jsstring) :
  Forall (fun c => isTrimSpace c = true) s ->
  forall inRun, Forall (fun c => isTrimSpace c = true) (collapseBlanks inRun s).
Proof.
  induction 1 as [| c s Hc _ IH]; intros inRun; simpl; [constructor |].
  destruct (isBlank c).
  - destruct inRun; simpl; [apply IH | constructor; [reflexivity | apply IH]].
  - constructor; [exact Hc | apply IH].
Qed.

Lemma collapseNewlines_spaces (s : jsstring) :
  Forall (fun c => isTrimSpace c = true) s ->
  forall seen, Forall (fun c => isTrimSpace c = true) (collapseNewlines seen s).
Proof.
  induction 1 as [| c s Hc _ IH]; intros seen; simpl; [constructor |].
  destruct (c =? LF).
  - destruct seen as [| [| seen]]; try (constructor; [exact Hc |]); apply IH.
  - constructor; [exact Hc | apply IH].
Qed.

Lemma trim_spaces (s : jsstring) :
  Forall (fun c => isTrimSpace c = true) s -> trim s = [].
Proof.
  intros H. unfold trim.
  replace (trimStart s) with (@nil codeunit); [reflexivity |].
  symmetry. rewrite <- (app_nil_r s). now apply trimStart_spaces.
Qed.

Lemma replaceDisallowed_vanishes (uniLNPZs : Z -> bool) (x : jsstring) :
  Forall (vanishes uniLNPZs) x ->
  Forall (fun c => isTrimSpace c = true) (replaceDisallowed uniLNPZs x).
Proof.
  intros Hx.
  rewrite replaceDisallowed_bmp
    by (eapply Forall_impl; [exact Hx |]; now intros c [Hc _]).
  induction Hx as [| c x [_ Hc] _ IH]; simpl; constructor; trivial.
  destruct (keptByClass uniLNPZs c); [| reflexivity].
  now destruct Hc.
Qed.

(** X4: a text made only of characters the class rejects and of white space
    sanitizes to the empty string. *)
Theorem sanitizeText_noise (uniLNPZs : Z -> bool) (x : jsstring) :
  Forall (vanishes uniLNPZs) x -> sanitizeText uniLNPZs x = [].
Proof.
  intros Hx. unfold sanitizeText.
  apply trim_spaces, collapseNewlines_spaces, collapseBlanks_spaces.
  now apply replaceDisallowed_vanishes.
Qed.

Lemma sanitizeText_noise_witness :
  sanitizeText basicLatin [0; 7; SP; LF; 27; TAB; LF; LF; 127] = [].
Proof.
  apply (sanitizeText_noise basicLatin).
  repeat constructor; (now left) || (now right).
Defined.

(** *** What sanitizing keeps *)

Lemma replaceDisallowed_length (uniLNPZs : Z -> bool) (s : jsstring) :
  (length (replaceDisallowed uniLNPZs s) <= length s)%nat.
Proof.
  remember (length s) as n eqn:Hn.
  assert (Hle : (length s <= n)%nat) by lia.
  rewrite Hn. clear Hn. revert s Hle.
  induction n as [| n IH]; intros [| c rest] Hle; simpl in *; try lia.
  assert (Hone : (length ((if keptByClass uniLNPZs c then [c] else [SP])
                            ++ replaceDisallowed uniLNPZs rest) <= S (length rest))%nat).
  { rewrite length_app. specialize (IH rest ltac:(lia)).
    destruct (keptByClass uniLNPZs c); simpl; lia. }
  destruct (isHighSurrogate c); [| exact Hone].
  destruct rest as [| lo rest']; [destruct (keptByClass uniLNPZs c); simpl; lia |].
  destruct (isLowSurrogate lo); [| exact Hone].
  specialize (IH rest' ltac:(simpl in Hle; lia)).
  destruct (keptByClass uniLNPZs (codePoint c lo)); simpl; lia.
Qed.

Lemma collapseBlanks_length (s : jsstring) :
  forall inRun, (length (collapseBlanks inRun s) <= length s)%nat.
Proof.
  induction s as [| c s IH]; intros inRun; simpl; [lia |].
  destruct (isBlank c).
  - specialize (IH true). destruct inRun; simpl; lia.
  - specialize (IH false). simpl. lia.
Qed.

Lemma collapseNewlines_length (s : jsstring) :
  forall seen, (length (collapseNewlines seen s) <= length s)%nat.
Proof.
  induction s as [| c s IH]; intros seen; simpl; [lia |].
  destruct (c =? LF).
  - destruct seen as [| [| seen]]; simpl;
      [specialize (IH 1%nat) | specialize (IH 2%nat) | specialize (IH (S (S seen)))]; lia.
  - specialize (IH O). simpl. lia.
Qed.

Lemma trimStart_length (s : jsstring) : (length (trimStart s) <= length s)%nat.
Proof.
  induction s as [| c s IH]; simpl; [lia |].
  destruct (isTrimSpace c); simpl; lia.
Qed.

Lemma trimEnd_length (s : jsstring) : (length (trimEnd s) <= length s)%nat.
Proof.
  induction s as [| c s IH]; [simpl; lia |].
  destruct (trimEnd_cons c s) as [-> | ->]; simpl; lia.
Qed.

(** A sanitized text is never longer than the text it comes from. *)
Lemma sanitizeText_length (uniLNPZs : Z -> bool) (x : jsstring) :
  (length (sanitizeText uniLNPZs x) <= length x)%nat.
Proof.
  unfold sanitizeText, trim.
  pose proof (replaceDisallowed_length uniLNPZs x).
  pose proof (collapseBlanks_length (replaceDisallowed uniLNPZs x) false).
  pose proof (collapseNewlines_length
                (collapseBlanks false (replaceDisallowed uniLNPZs x)) O).
  pose proof (trimStart_length
                (collapseNewlines O (collapseBlanks false (replaceDisallowed uniLNPZs x)))).
  pose proof (trimEnd_length
                (trimStart (collapseNewlines O
                              (collapseBlanks false (replaceDisallowed uniLNPZs x))))).
  lia.
Qed.

Lemma content_not_space (uniLNPZs : Z -> bool) (c : codeunit) :
  isTrimSpace c = true -> isContent uniLNPZs c = false.
Proof. intros H. unfold isContent. rewrite H. apply andb_false_r. Qed.

Lemma collapseBlanks_content (uniLNPZs : Z -> bool) (s : jsstring) :
  forall inRun,
    List.filter (isContent uniLNPZs) (collapseBlanks inRun s)
    = List.filter (isContent uniLNPZs) s.
Proof.
  induction s as [| c s IH]; intros inRun; simpl; [reflexivity |].
  destruct (isBlank c) eqn:Hc.
  - rewrite (content_not_space uniLNPZs c (trimSpace_blank c Hc)).
    destruct inRun; simpl;
      rewrite ?(content_not_space uniLNPZs SP eq_refl); apply IH.
  - simpl. now rewrite IH.
Qed.

Lemma collapseNewlines_content (uniLNPZs : Z -> bool) (s : jsstring) :
  forall seen,
    List.filter (isContent uniLNPZs) (collapseNewlines seen s)
    = List.filter (isContent uniLNPZs) s.
Proof.
  induction s as [| c s IH]; intros seen; simpl; [reflexivity |].
  destruct (c =? LF) eqn:Hc.
  - rewrite (content_not_space uniLNPZs c (trimSpace_newline c Hc)).
    destruct seen as [| [| seen]]; simpl;
      rewrite ?(content_not_space uniLNPZs c (trimSpace_newline c Hc)); apply IH.
  - simpl. now rewrite IH.
Qed.

Lemma trimStart_content (uniLNPZs : Z -> bool) (s : jsstring) :
  List.filter (isContent uniLNPZs) (trimStart s) = List.filter (isContent uniLNPZs) s.
Proof.
  induction s as [| c s IH]; [reflexivity |].
  simpl trimStart. destruct (isTrimSpace c) eqn:Hc; [| reflexivity].
  simpl. now rewrite (content_not_space uniLNPZs c Hc).
Qed.

Lemma trimEnd_content (uniLNPZs : Z -> bool) (s : jsstring) :
  List.filter (isContent uniLNPZs) (trimEnd s) = List.filter (isContent uniLNPZs) s.
Proof.
  induction s as [| c s IH]; [reflexivity |].
  simpl. destruct (trimEnd s) as [| k kept] eqn:Hkept.
  - destruct (isTrimSpace c) eqn:Hc.
    + rewrite (content_not_space uniLNPZs c Hc). exact IH.
    + simpl. now rewrite <- IH.
  - simpl in *. now rewrite <- IH.
Qed.

(** X5: sanitizing never makes a text longer, and on a text without
    surrogates it keeps the readable content: the units the class keeps and
    that are not white space come out all of them, unchanged and in order. *)
Theorem sanitizeText_keeps_content (uniLNPZs : Z -> bool) (x : jsstring) :
  (length (sanitizeText uniLNPZs x) <= length x)%nat
  /\ (Forall (fun c => isSurrogate c = false) x ->
      List.filter (isContent uniLNPZs) (sanitizeText uniLNPZs x)
      = List.filter (isContent uniLNPZs) x).
Proof.
  split; [apply sanitizeText_length |].
  intros Hx. unfold sanitizeText, trim.
  rewrite trimEnd_content, trimStart_content, collapseNewlines_content,
          collapseBlanks_content, replaceDisallowed_bmp by exact Hx.
  clear Hx. induction x as [| c x IH]; simpl; [reflexivity |].
  destruct (keptByClass uniLNPZs c) eqn:Hk.
  - now rewrite IH.
  - rewrite (content_not_space uniLNPZs SP eq_refl).
    unfold isContent at 2. rewrite Hk. simpl. exact IH.
Qed.

Lemma sanitizeText_keeps_content_witness :
  List.filter (isContent basicLatin)
    (sanitizeText basicLatin (jstr " Arjuna" ++ [0; TAB] ++ jstr "said:  " ++ [LF]))
  = List.filter (isContent basicLatin)
      (jstr " Arjuna" ++ [0; TAB] ++ jstr "said:  " ++ [LF]).
Proof.
  apply (proj2 (sanitizeText_keeps_content basicLatin _)).
  repeat constructor.
Defined.

(** ** The retriever, for every [topK] *)

Lemma arraySlice_from_start {A : Type} (l : list A) (k : Z) :
  arraySlice l 0 k = firstn (Z.to_nat (relativeIndex (Z.of_nat (length l)) k)) l.
Proof.
  unfold arraySlice.
  assert (Hzero : relativeIndex (Z.of_nat (length l)) 0 = 0)
    by (unfold relativeIndex; simpl; lia).
  rewrite Hzero. change (skipn (Z.to_nat 0) l) with l. now rewrite Z.sub_0_r.
Qed.

Lemma relativeIndex_range (len k : Z) : 0 <= len -> 0 <= relativeIndex len k <= len.
Proof. intros Hlen. unfold relativeIndex. destruct (Z.ltb_spec k 0); lia. Qed.

Section RetrieverFacts.
Variable numberToString : number -> jsstring.
Variable cosineSimilarity : list Q -> list Q -> Q.
Variable embedContent : jsstring -> TaskType -> option (list Q).
Variable pdfChunksWithEmbeddings : list Chunk.

Abbreviation retrieve' :=
  (retrieveRelevantChunksVector numberToString cosineSimilarity embedContent
     pdfChunksWithEmbeddings).
Abbreviation top' := (topScored cosineSimilarity pdfChunksWithEmbeddings).
Abbreviation scored' := (scoredChunks cosineSimilarity pdfChunksWithEmbeddings).

Lemma top_prefix (queryEmbedding : list Q) (topK : Z) :
  exists rest,
    arraySort byScoreDescending (scored' queryEmbedding)
    = top' queryEmbedding topK ++ rest.
Proof using Type.
  unfold topScored. rewrite arraySlice_from_start.
  eexists. symmetry. apply firstn_skipn.
Qed.

(** X6: the number of texts returned, for every [topK]: [topK] of them, or
    all when the store has fewer; none for [topK = 0]; and for a negative
    [topK] all but [-topK].  The chunks whose texts are returned and the
    chunks left out make up the store, and no chunk left out has a higher
    score [cosineSimilarity(queryEmbedding, chunk.embedding)] than a chunk
    returned. *)
Theorem retrieve_count (query : jsstring) (history : list value) (topK : Z)
    (queryEmbedding : list Q) (w : World) :
  embedContent (combinedQuery numberToString query history) RETRIEVAL_QUERY
    = Some queryEmbedding ->
  exists kept left : list Chunk,
    fst (retrieve' query history topK w) = Ok (map text kept)
    /\ Z.of_nat (length kept)
       = (if topK <? 0
          then Z.max (Z.of_nat (length pdfChunksWithEmbeddings) + topK) 0
          else Z.min topK (Z.of_nat (length pdfChunksWithEmbeddings)))
    /\ Permutation (kept ++ left) pdfChunksWithEmbeddings
    /\ Forall (fun low =>
                 Forall (fun high =>
                           (cosineSimilarity queryEmbedding (embedding low)
                            <= cosineSimilarity queryEmbedding (embedding high))%Q) kept)
              left.
Proof using Type.
  intros Hembed.
  pose proof (top_texts cosineSimilarity pdfChunksWithEmbeddings queryEmbedding topK)
    as Htexts.
  pose proof (sortByKey_sorted (fun c => cosineSimilarity queryEmbedding (embedding c))
                pdfChunksWithEmbeddings) as Hsorted.
  pose proof (arraySort_perm
                (fun a b : Chunk => (cosineSimilarity queryEmbedding (embedding b)
                                     - cosineSimilarity queryEmbedding (embedding a))%Q)
                pdfChunksWithEmbeddings) as Hperm.
  rewrite arraySlice_from_start in Htexts.
  set (ranked := arraySort _ pdfChunksWithEmbeddings) in *.
  set (n := Z.to_nat (relativeIndex (Z.of_nat (length ranked)) topK)) in *.
  exists (firstn n ranked), (skipn n ranked). split; [| split; [| split]].
  - rewrite retrieve_steps.
    destruct pdfChunksWithEmbeddings as [| c store] eqn:Estore.
    + subst ranked. simpl. now rewrite firstn_nil.
    + cbv zeta. rewrite Hembed. simpl fst. f_equal. exact Htexts.
  - rewrite length_firstn. subst n. rewrite (Permutation_length Hperm).
    pose proof (relativeIndex_range (Z.of_nat (length pdfChunksWithEmbeddings)) topK
                  ltac:(lia)) as Hrange.
    unfold relativeIndex in *. destruct (Z.ltb_spec topK 0); lia.
  - now rewrite firstn_skipn.
  - clear Htexts Hperm. rewrite <- (firstn_skipn n ranked) in Hsorted.
    revert Hsorted. generalize (firstn n ranked) (skipn n ranked).
    intros kept left. induction kept as [| a kept IH]; simpl; intros Hsorted.
    + apply List.Forall_forall. intros low _. constructor.
    + inversion Hsorted as [| a' l' Hs Ha]; subst. specialize (IH Hs).
      rewrite List.Forall_forall in *. intros low Hlow. constructor.
      * apply Ha. apply in_or_app. now right.
      * now apply IH.
Qed.

(** X7: every text returned is the text of a chunk of the store, and the
    first one is the text of a chunk no chunk of the store outscores. *)
Theorem retrieve_best_first (query : jsstring) (history : list value) (topK : Z)
    (queryEmbedding : list Q) (w : World) (texts : list jsstring) :
  embedContent (combinedQuery numberToString query history) RETRIEVAL_QUERY
    = Some queryEmbedding ->
  fst (retrieve' query history topK w) = Ok texts ->
  (forall t, In t texts -> exists chunk, In chunk pdfChunksWithEmbeddings /\ text chunk = t)
  /\ (forall t rest, texts = t :: rest ->
        exists best,
          In best pdfChunksWithEmbeddings /\ text best = t
          /\ forall chunk, In chunk pdfChunksWithEmbeddings ->
               (cosineSimilarity queryEmbedding (embedding chunk)
                <= cosineSimilarity queryEmbedding (embedding best))%Q).
Proof using Type.
  intros Hembed Hrun.
  assert (Htexts : texts = map itemText (top' queryEmbedding topK)).
  { rewrite retrieve_steps in Hrun.
    destruct pdfChunksWithEmbeddings as [| c store] eqn:Estore.
    - simpl in Hrun. injection Hrun as <-. unfold topScored, scoredChunks.
      simpl. now rewrite arraySlice_from_start, firstn_nil.
    - cbv zeta in Hrun. rewrite Hembed in Hrun. simpl in Hrun. now injection Hrun as <-. }
  destruct (top_prefix queryEmbedding topK) as [rest Hrest].
  assert (Hfrom : forall s, In s (arraySort byScoreDescending (scored' queryEmbedding)) ->
            exists chunk, In chunk pdfChunksWithEmbeddings /\ text chunk = itemText s
              /\ score s = cosineSimilarity queryEmbedding (embedding chunk)).
  { intros s Hs. apply (Permutation_in _ (arraySort_perm byScoreDescending _)) in Hs.
    unfold scoredChunks in Hs. apply in_map_iff in Hs as (chunk & <- & Hin).
    now exists chunk. }
  split.
  - intros t Ht. rewrite Htexts in Ht. apply in_map_iff in Ht as (s & <- & Hs).
    destruct (Hfrom s) as (chunk & Hin & Htext & _).
    + rewrite Hrest. apply in_or_app. now left.
    + now exists chunk.
  - intros t tl Hhead. rewrite Htexts in Hhead.
    destruct (top' queryEmbedding topK) as [| a kept]; [discriminate |].
    simpl in Hhead. injection Hhead as <- _.
    pose proof (arraySort_descending (scored' queryEmbedding)) as Hsorted.
    rewrite Hrest in Hsorted. simpl in Hsorted.
    inversion Hsorted as [| a' l' _ Ha]; subst.
    destruct (Hfrom a) as (best & Hin & Htext & Hscore);
      [rewrite Hrest; now left |].
    exists best. repeat split; trivial.
    intros chunk Hchunk. rewrite <- Hscore.
    assert (Hs : In {| itemText := text chunk;
                       score := cosineSimilarity queryEmbedding (embedding chunk) |}
                    (arraySort byScoreDescending (scored' queryEmbedding))).
    { apply (Permutation_in _ (Permutation_sym (arraySort_perm byScoreDescending _))).
      unfold scoredChunks. apply in_map_iff. now exists chunk. }
    rewrite Hrest in Hs. destruct Hs as [Heq | Hs]; [rewrite Heq; simpl; lra |].
    rewrite List.Forall_forall in Ha. apply (Ha _ Hs).
Qed.
End RetrieverFacts.

Lemma retrieve_count_witness :
  exists kept left : list Chunk,
    fst (retrieveRelevantChunksVector printNothing dot (fun _ _ => Some unitY) sampleStore
           (jstr "who am I?") [] (-1) emptyWorld) = Ok (map text kept)
    /\ Z.of_nat (length kept)
       = (if -1 <? 0 then Z.max (Z.of_nat (length sampleStore) + -1) 0
          else Z.min (-1) (Z.of_nat (length sampleStore)))
    /\ Permutation (kept ++ left) sampleStore
    /\ Forall (fun low =>
                 Forall (fun high =>
                           (dot unitY (embedding low) <= dot unitY (embedding high))%Q) kept)
              left.
Proof.
  apply (retrieve_count printNothing dot (fun _ _ => Some unitY) sampleStore
           (jstr "who am I?") [] (-1) unitY emptyWorld).
  reflexivity.
Defined.

Lemma retrieve_best_first_witness :
  (forall t, In t [jstr "duty without attachment"] ->
     exists chunk, In chunk sampleStore /\ text chunk = t)
  /\ (forall t rest, [jstr "duty without attachment"] = t :: rest ->
        exists best,
          In best sampleStore /\ text best = t
          /\ forall chunk, In chunk sampleStore ->
               (dot unitX (embedding chunk) <= dot unitX (embedding best))%Q).
Proof.
  apply (retrieve_best_first printNothing dot (fun _ _ => Some unitX) sampleStore
           (jstr "what is duty?") [] 1 unitX emptyWorld [jstr "duty without attachment"]);
    reflexivity.
Defined.

(** ** The handler, request by request *)

Lemma clarification_not_blank : trim clarification <> [].
Proof. vm_compute. discriminate. Qed.

Lemma blank_test (t : jsstring) : (0 <? strlen (trim t)) = false <-> trim t = [].
Proof.
  unfold strlen. destruct (trim t) as [| c s]; simpl.
  - split; trivial.
  - split; [intros H; apply Z.ltb_ge in H; lia | discriminate].
Qed.

Section HandlerFacts.
Variable numberToString : number -> jsstring.
Variable cosineSimilarity : list Q -> list Q -> Q.
Variable embedContent : jsstring -> TaskType -> option (list Q).
Variable sendMessage :
  list value -> GenerationConfig -> jsstring -> Generation * list value.
Variable nonStringKey : value -> option jsstring.
Variable pdfChunksWithEmbeddings : list Chunk.

Abbreviation retrieve'' :=
  (retrieveRelevantChunksVector numberToString cosineSimilarity embedContent
     pdfChunksWithEmbeddings).
Abbreviation handler' :=
  (chatHandler numberToString cosineSimilarity embedContent sendMessage nonStringKey
     pdfChunksWithEmbeddings).
Abbreviation keyOf' := (sessionKey nonStringKey).
Abbreviation printed' := (toStr numberToString).

(** X8: the reply has status 200, 400 or 500; the session cache changes only
    with a 200; and a 400 comes with no collaborator call. *)
Theorem chat_status_and_state (req : ChatBody) (w : World) :
  (status (fst (handler' req w)) = 200
   \/ fst (handler' req w) = badRequest \/ fst (handler' req w) = internalError)
  /\ (status (fst (handler' req w)) <> 200 ->
      sessionCache (snd (handler' req w)) = sessionCache w)
  /\ (status (fst (handler' req w)) = 400 -> snd (handler' req w) = w).
Proof using Type.
  destruct (Z.eq_dec (status (fst (handler' req w))) 200) as [E | E].
  - repeat split; auto; intros; congruence || lia.
  - destruct (handler_not_ok _ _ _ _ _ _ req w E) as [[[Hbad Hw] | Herr] Hcache].
    + repeat split; auto.
    + repeat split; auto. rewrite Herr. discriminate.
Qed.

(** X9: a request leaves the history of every session but its own as it
    was, whatever its outcome. *)
Theorem chat_other_sessions (req : ChatBody) (w : World) (other : jsstring) :
  keyOf' (sessionId req) <> Some other ->
  sessionCache (snd (handler' req w)) !! other = sessionCache w !! other.
Proof using Type.
  intros Hother.
  destruct (Z.eq_dec (status (fst (handler' req w))) 200) as [E | E].
  - destruct (handler_stores _ _ _ _ _ _ req w E)
      as (key & chunks & finalText & user & model & Hkey & _ & _ & _ & _ & _ & _ & _ & Hrest).
    apply Hrest. congruence.
  - destruct (handler_not_ok _ _ _ _ _ _ req w E) as [_ ->]. reflexivity.
Qed.

(** X10: the text of the reply, for a request that reaches the generation
    call: the generated text when that has something other than white space,
    the clarification request when it is blank or when the result has no
    text, and the 500 reply when the call is rejected.  So the text of a 200
    reply is never blank. *)
Theorem chat_reply_not_blank (req : ChatBody) (w : World) :
  (forall key chunks w1,
     truthy (sessionId req) = true -> truthy (prompt req) = true ->
     keyOf' (sessionId req) = Some key -> printable (prompt req) = true ->
     retrieve'' (printed' (prompt req)) (default [] (sessionCache w !! key)) 3 w
     = (Ok chunks, w1) ->
     match fst (sendMessage (default [] (sessionCache w !! key)) generationConfig
                  (fullPrompt (joinStrings separator chunks) (printed' (prompt req)))) with
     | GenText reply =>
         (trim reply <> [] -> fst (handler' req w) = okResponse reply)
         /\ (trim reply = [] -> fst (handler' req w) = okResponse clarification)
     | GenNoText => fst (handler' req w) = okResponse clarification
     | GenRejected => fst (handler' req w) = internalError
     end)
  /\ (status (fst (handler' req w)) = 200 ->
      exists finalText,
        body (fst (handler' req w)) = VObj [(jstr "response", VStr finalText)]
        /\ trim finalText <> []).
Proof using Type.
  split.
  - intros key chunks w1 Hsid Hp Hkey Hprint Hret.
    rewrite handler_steps, Hsid, Hp, Hkey, Hprint, Hret. simpl orb. cbv iota zeta.
    destruct (sendMessage _ _ _) as [[| | reply] history]; simpl;
      [reflexivity | reflexivity |].
    split; intros Hblank.
    + destruct (0 <? strlen (trim reply)) eqn:Htest; [reflexivity |].
      apply blank_test in Htest. contradiction.
    + apply blank_test in Hblank. now rewrite Hblank.
  - intros Hstatus.
    destruct (handler_ok_inv _ _ _ _ _ _ req w Hstatus)
      as (key & chunks & w1 & text & history & _ & _ & _ & _ & _ & _ & ->).
    simpl fst. simpl body. eexists. split; [reflexivity |].
    destruct (0 <? strlen (trim text)) eqn:Htest.
    + intros Hblank. apply blank_test in Hblank. congruence.
    + apply clarification_not_blank.
Qed.

(** X11: the collaborator calls of a request, in order.  A request rejected
    at validation, refused by the cache or with a prompt that cannot be
    printed makes none.  Any other request makes the embedding call of the
    combined query when the store is not empty, and then, unless that call
    was rejected, one generation call: on the history as cached before the
    request, with the prompt built from the chunks retrieved. *)
Theorem chat_call_order (req : ChatBody) (w : World) :
  (truthy (sessionId req) = false \/ truthy (prompt req) = false
   \/ keyOf' (sessionId req) = None \/ printable (prompt req) = false ->
   calls (snd (handler' req w)) = calls w)
  /\ (forall key,
        truthy (sessionId req) = true -> truthy (prompt req) = true ->
        keyOf' (sessionId req) = Some key -> printable (prompt req) = true ->
        (pdfChunksWithEmbeddings = [] ->
         calls (snd (handler' req w))
         = calls w ++ [CallGenerate (default [] (sessionCache w !! key)) generationConfig
                         (fullPrompt [] (printed' (prompt req)))])
        /\ (pdfChunksWithEmbeddings <> [] ->
            embedContent (combinedQuery numberToString (printed' (prompt req))
                            (default [] (sessionCache w !! key))) RETRIEVAL_QUERY = None ->
            calls (snd (handler' req w))
            = calls w ++ [CallEmbed (combinedQuery numberToString (printed' (prompt req))
                                       (default [] (sessionCache w !! key)))
                            RETRIEVAL_QUERY])
        /\ (pdfChunksWithEmbeddings <> [] ->
            forall chunks,
              fst (retrieve'' (printed' (prompt req))
                     (default [] (sessionCache w !! key)) 3 w) = Ok chunks ->
              calls (snd (handler' req w))
              = calls w
                ++ [CallEmbed (combinedQuery numberToString (printed' (prompt req))
                                 (default [] (sessionCache w !! key))) RETRIEVAL_QUERY;
                    CallGenerate (default [] (sessionCache w !! key)) generationConfig
                      (fullPrompt (joinStrings separator chunks)
                         (printed' (prompt req)))])).
Proof using Type.
  split.
  - intros H. rewrite handler_steps.
    destruct (truthy (sessionId req)) eqn:Hsid; [| reflexivity].
    destruct (truthy (prompt req)) eqn:Hp; [| reflexivity]. simpl orb. cbv iota.
    destruct (keyOf' (sessionId req)) as [key |] eqn:Hkey; [| reflexivity].
    destruct (printable (prompt req)) eqn:Hprint; [| reflexivity].
    destruct H as [H | [H | [H | H]]]; discriminate H.
  - intros key Hsid Hp Hkey Hprint.
    rewrite handler_steps, Hsid, Hp, Hkey, Hprint, retrieve_steps.
    simpl orb. cbv iota. split; [| split].
    + intros ->. cbv zeta.
      destruct (sendMessage _ _ _) as [[| | text] history]; reflexivity.
    + intros Hstore Hembed.
      destruct pdfChunksWithEmbeddings as [| c store]; [congruence |].
      cbv zeta. now rewrite Hembed.
    + intros Hstore chunks.
      destruct pdfChunksWithEmbeddings as [| c store]; [congruence |].
      cbv zeta. destruct (embedContent _ _) as [queryEmbedding |]; [| discriminate].
      simpl fst. intros [= <-].
      destruct (sendMessage _ _ _) as [[| | text] history]; simpl;
        rewrite <- app_assoc; reflexivity.
Qed.

(** X12: every history of the cache ends with an exchange, a user turn
    followed by a model turn whose text is not blank: if that is so before a
    request, it is so after it, whatever the generation call did to the
    history array. *)
Theorem chat_keeps_exchanges (req : ChatBody) (w : World) :
  cacheOfExchanges w -> cacheOfExchanges (snd (handler' req w)).
Proof using Type.
  intros Hw.
  destruct (Z.eq_dec (status (fst (handler' req w))) 200) as [E | E].
  - destruct (handler_ok_inv _ _ _ _ _ _ req w E)
      as (key & chunks & w1 & text & history & _ & _ & _ & _ & _ & _ & ->).
    simpl snd. intros key' stored. simpl sessionCache. rewrite lookup_insert.
    destruct (decide (key = key')) as [_ | _]; [| apply Hw].
    intros [= <-].
    exists history, (turnOf (jstr "user") (prompt req)),
      (modelTurn (if 0 <? strlen (trim text) then text else clarification)),
      (if 0 <? strlen (trim text) then text else clarification).
    repeat split.
    destruct (0 <? strlen (trim text)) eqn:Htest.
    + intros Hblank. apply blank_test in Hblank. congruence.
    + apply clarification_not_blank.
  - destruct (handler_not_ok _ _ _ _ _ _ req w E) as [_ Hcache].
    intros key stored. rewrite Hcache. apply Hw.
Qed.
End HandlerFacts.

(** ** The build path *)

Lemma arraySlice_window {A : Type} (l : list A) (i n : Z) :
  0 <= i -> 0 < n ->
  arraySlice l i (i + n) = firstn (Z.to_nat n) (skipn (Z.to_nat i) l).
Proof.
  intros Hi Hn. unfold arraySlice, relativeIndex.
  destruct (Z.ltb_spec i 0); [lia |]. destruct (Z.ltb_spec (i + n) 0); [lia |].
  destruct (Z_le_gt_dec i (Z.of_nat (length l))) as [Hle | Hgt].
  - replace (Z.min i (Z.of_nat (length l))) with i by lia.
    destruct (Z_le_gt_dec (i + n) (Z.of_nat (length l))) as [Hin | Hout].
    + now replace (Z.min (i + n) (Z.of_nat (length l)) - i) with n by lia.
    + replace (Z.min (i + n) (Z.of_nat (length l))) with (Z.of_nat (length l)) by lia.
      rewrite (firstn_all2 (n := Z.to_nat n)) by (rewrite length_skipn; lia).
      apply firstn_all2. rewrite length_skipn. lia.
  - replace (Z.min i (Z.of_nat (length l))) with (Z.of_nat (length l)) by lia.
    rewrite (skipn_all2 (n := Z.to_nat i)) by lia.
    rewrite (skipn_all2 (n := Z.to_nat (Z.of_nat (length l)))) by lia.
    now rewrite !firstn_nil.
Qed.

Lemma skipn_next {A : Type} (l : list A) :
  forall (k : nat) (x : A), nth_error l k = Some x -> skipn k l = x :: skipn (S k) l.
Proof.
  induction l as [| y l IH]; intros [| k] x H; simpl in *; try discriminate.
  - now injection H as ->.
  - now apply IH.
Qed.

(** The final [map] pairs the chunks with the first vectors, one each, and
    throws when the vectors run out. *)
Lemma pairChunks_ok (chunks : list jsstring) :
  forall (k : nat) (allEmbeddings : list (list Q)) (store : list Chunk),
    pairChunks chunks k allEmbeddings = Ok store ->
    store = zip_with mkChunk chunks (skipn k allEmbeddings)
    /\ (length chunks <= length (skipn k allEmbeddings))%nat.
Proof.
  induction chunks as [| c chunks IH]; intros k allEmbeddings store H; simpl in H.
  - injection H as <-. split; [reflexivity | simpl; lia].
  - destruct (nth_error allEmbeddings k) as [values |] eqn:Hk; [| discriminate].
    destruct (pairChunks chunks (S k) allEmbeddings) as [paired |] eqn:Hrest;
      [| discriminate].
    injection H as <-. destruct (IH _ _ _ Hrest) as [-> Hlen].
    rewrite (skipn_next _ _ _ Hk). split; [reflexivity | simpl; lia].
Qed.

Lemma pairChunks_enough (chunks : list jsstring) :
  forall (k : nat) (allEmbeddings : list (list Q)),
    (length chunks + k <= length allEmbeddings)%nat ->
    exists store, pairChunks chunks k allEmbeddings = Ok store.
Proof.
  induction chunks as [| c chunks IH]; intros k allEmbeddings Hlen; simpl in *.
  - now exists [].
  - destruct (nth_error allEmbeddings k) as [values |] eqn:Hk.
    + destruct (IH (S k) allEmbeddings) as [paired ->]; [lia |]. eauto.
    + apply nth_error_None in Hk. lia.
Qed.

Lemma zip_with_texts (chunks : list jsstring) :
  forall vectors : list (list Q),
    (length chunks <= length vectors)%nat ->
    map text (zip_with mkChunk chunks vectors) = chunks
    /\ map embedding (zip_with mkChunk chunks vectors) = firstn (length chunks) vectors.
Proof.
  induction chunks as [| c chunks IH]; intros [| v vectors] Hlen; simpl in *;
    try (split; reflexivity); try lia.
  destruct (IH vectors) as [-> ->]; [lia |]. now split.
Qed.

(** The serialised array, read back: the typed store it came from. *)
Lemma allSome_numbers (values : list Q) :
  allSome (map numberOfValue (map (fun q => VNum (NFin q)) values)) = Some values.
Proof.
  induction values as [| q values IH]; simpl; [reflexivity |]. now rewrite IH.
Qed.

Lemma chunkOfValue_valueOfChunk (c : Chunk) : chunkOfValue (valueOfChunk c) = Some c.
Proof.
  destruct c as [t e]. unfold chunkOfValue, valueOfChunk. simpl lookupProp.
  change (lookupProp _ (jstr "text")) with (VStr t).
  cbv iota. rewrite allSome_numbers. reflexivity.
Qed.

Lemma storeOfValue_written (store : list Chunk) :
  storeOfValue (VArr (map valueOfChunk store)) = Some store.
Proof.
  unfold storeOfValue. rewrite map_map.
  induction store as [| c store IH]; [reflexivity |].
  cbn [map]. rewrite chunkOfValue_valueOfChunk. cbn [allSome]. now rewrite IH.
Qed.

Section BuildFacts.
Variable uniLNPZs : Z -> bool.
Variable batchEmbedContents : list EmbedRequest -> option (list (list Q)).
Variable writeFile : value -> bool.

Abbreviation loop := (batchLoop batchEmbedContents).
Abbreviation outcome := (batchOutcome batchEmbedContents).

(** The batch loop from index [i]: it exits within
    [length nonEmptyChunks - i + 1] tests; the batches it sent are the
    chunks from [i] on, cut in order into pieces of 99 at most, up to the
    first rejected one. *)
Lemma batchLoop_run (chunks : list jsstring) :
  forall (fuel : nat) (i : Z) (gathered : list (list Q)) (sent : list (list EmbedRequest)),
    0 <= i -> Z.max (Z.of_nat (length chunks) - i) 0 < Z.of_nat fuel ->
    exists r batches rest,
      loop fuel chunks i gathered sent = Some (r, sent ++ map embeddingRequests batches)
      /\ skipn (Z.to_nat i) chunks = concat batches ++ rest
      /\ Forall batchSized batches
      /\ outcome batches gathered r
      /\ (forall allEmbeddings, r = Ok allEmbeddings -> rest = []).
Proof using Type.
  intros fuel. induction fuel as [| fuel IH]; intros i gathered sent Hi Hfuel; [lia |].
  simpl. destruct (i <? Z.of_nat (length chunks)) eqn:Htest.
  - apply Z.ltb_lt in Htest.
    assert (Hbatch : arraySlice chunks i (i + BATCH_SIZE)
                     = firstn 99 (skipn (Z.to_nat i) chunks))
      by (rewrite arraySlice_window by (unfold BATCH_SIZE; lia); reflexivity).
    rewrite Hbatch. set (batch := firstn 99 (skipn (Z.to_nat i) chunks)).
    assert (Hlength : length batch = Nat.min 99 (length chunks - Z.to_nat i))
      by (subst batch; now rewrite length_firstn, length_skipn).
    assert (Hsized : batchSized batch).
    { split.
      - intros Hnil. rewrite Hnil in Hlength. change (length (@nil jsstring)) with O in Hlength.
        lia.
      - rewrite Hlength. unfold BATCH_SIZE. lia. }
    assert (Hcut : skipn (Z.to_nat i) chunks
                   = batch ++ skipn (Z.to_nat (i + BATCH_SIZE)) chunks).
    { subst batch. unfold BATCH_SIZE.
      replace (Z.to_nat (i + 99)) with (99 + Z.to_nat i)%nat by lia.
      rewrite <- skipn_skipn. symmetry. apply firstn_skipn. }
    destruct (batchEmbedContents (embeddingRequests batch)) as [embeddings |] eqn:Hcall.
    + destruct (IH (i + BATCH_SIZE) (gathered ++ embeddings)
                  (sent ++ [embeddingRequests batch]))
        as (r & batches & rest & Hrun & Hrest & Hall & Hout & Hdone);
        [unfold BATCH_SIZE; lia | unfold BATCH_SIZE; lia |].
      exists r, (batch :: batches), rest. repeat split.
      * rewrite Hrun, <- app_assoc. reflexivity.
      * rewrite Hcut, Hrest. simpl. now rewrite app_assoc.
      * now constructor.
      * destruct r as [allEmbeddings |]; simpl in *.
        -- destruct Hout as (responses & Hans & ->).
           exists (embeddings :: responses). split; [now constructor |].
           simpl. now rewrite app_assoc.
        -- destruct Hout as (before & last & -> & Hlast & Hbefore).
           exists (batch :: before), last. repeat split; trivial.
           constructor; [congruence | exact Hbefore].
      * exact Hdone.
    + exists Thrown, [batch], (skipn (Z.to_nat (i + BATCH_SIZE)) chunks). repeat split.
      * rewrite Hcut. simpl. now rewrite app_nil_r.
      * now constructor.
      * exists [], batch. repeat split; trivial.
      * discriminate.
  - apply Z.ltb_ge in Htest. exists (Ok gathered), [], []. repeat split.
    + simpl. now rewrite app_nil_r.
    + simpl. apply skipn_all2. lia.
    + constructor.
    + exists []. split; [constructor | simpl; now rewrite app_nil_r].
Qed.

Lemma concat_length_nonempty {A : Type} (ls : list (list A)) :
  Forall (fun l => l <> []) ls -> (length ls <= length (concat ls))%nat.
Proof using Type.
  induction 1 as [| l ls Hl _ IH]; simpl; [lia |].
  rewrite length_app. destruct l; [congruence | simpl; lia].
Qed.

(** [chunkText] on the text of the document, with what the build needs of
    its chunks. *)
Lemma chunkText_runs (dataText : jsstring) (n : Z) (fuel : nat) :
  0 < n -> (length dataText < fuel)%nat ->
  exists chunks,
    chunkText fuel dataText n = Some chunks
    /\ concat chunks = dataText
    /\ Forall (fun c => strlen c <= n) chunks
    /\ (length chunks <= length dataText)%nat
    /\ Z.of_nat (length chunks) = (strlen dataText + n - 1) / n.
Proof using Type.
  intros Hn Hfuel.
  destruct (chunkLoop_positive dataText n Hn (S (length dataText)) 0 [])
    as (chunks & Hrun & Hcat & Hlen & _); [lia | unfold strlen; lia |].
  change (skipn (Z.to_nat 0) dataText) with dataText in Hcat.
  destruct (chunkLoop_shape dataText n Hn (S (length dataText)) 0 [])
    as (chunks' & Hrun' & Hcount & Hne & _); [lia | unfold strlen; lia |].
  rewrite Hrun in Hrun'. injection Hrun' as <-.
  exists chunks. repeat split; trivial.
  - unfold chunkText.
    apply chunkLoop_fuel_mono with (fuel := S (length dataText)); [lia | exact Hrun].
  - rewrite <- Hcat. now apply concat_length_nonempty.
  - rewrite Hcount. pose proof (strlen_nonneg dataText). do 2 f_equal. lia.
Qed.

Lemma nonEmptyChunksOf_length (chunks : list jsstring) :
  (length (nonEmptyChunksOf uniLNPZs chunks) <= length chunks)%nat.
Proof using Type.
  unfold nonEmptyChunksOf.
  induction chunks as [| c chunks IH]; simpl; [lia |].
  destruct (0 <? strlen (sanitizeText uniLNPZs c)); simpl; lia.
Qed.

(** The [try] block of the build, on an extracted text: the chunks, and then
    either nothing left of them and the throw before any call, or the batch
    loop and the final pairing. *)
Lemma buildStore_run (dataText : jsstring) (fuel : nat) :
  (length dataText < fuel)%nat ->
  exists chunks,
    chunkText fuel dataText defaultChunkSize = Some chunks
    /\ concat chunks = dataText
    /\ Forall (fun c => strlen c <= defaultChunkSize) chunks
    /\ (length chunks <= length dataText)%nat
    /\ Z.of_nat (length chunks) = (strlen dataText + defaultChunkSize - 1) / defaultChunkSize
    /\ ((nonEmptyChunksOf uniLNPZs chunks = []
         /\ buildStore uniLNPZs batchEmbedContents fuel (Some dataText) = Some (Thrown, []))
        \/ (nonEmptyChunksOf uniLNPZs chunks <> []
            /\ exists r batches rest,
                 buildStore uniLNPZs batchEmbedContents fuel (Some dataText)
                 = Some (match r with
                         | Ok allEmbeddings =>
                             pairChunks (nonEmptyChunksOf uniLNPZs chunks) 0 allEmbeddings
                         | Thrown => Thrown
                         end, map embeddingRequests batches)
                 /\ nonEmptyChunksOf uniLNPZs chunks = concat batches ++ rest
                 /\ Forall batchSized batches
                 /\ outcome batches [] r
                 /\ (forall allEmbeddings, r = Ok allEmbeddings -> rest = []))).
Proof using Type.
  intros Hfuel.
  destruct (chunkText_runs dataText defaultChunkSize fuel)
    as (chunks & Hchunks & Hcat & Hlen & Hcount & Hceil); [reflexivity | exact Hfuel |].
  exists chunks. repeat split; trivial.
  unfold buildStore. rewrite Hchunks. cbv zeta.
  destruct (nonEmptyChunksOf uniLNPZs chunks) as [| c ne] eqn:Hne.
  - left. split; reflexivity.
  - right. split; [discriminate |].
    rewrite <- Hne. replace (length (nonEmptyChunksOf uniLNPZs chunks) =? 0)%nat with false
      by (rewrite Hne; reflexivity).
    pose proof (nonEmptyChunksOf_length chunks) as Hshort.
    destruct (batchLoop_run (nonEmptyChunksOf uniLNPZs chunks) fuel 0 [] [])
      as (r & batches & rest & Hrun & Hrest & Hall & Hout & Hdone); [lia | lia |].
    exists r, batches, rest. rewrite Hrun. simpl in Hrest |- *.
    repeat split; trivial. now destruct r.
Qed.


Lemma answered_each (batches : list (list jsstring)) (responses : list (list (list Q))) :
  batchesAnswered batchEmbedContents batches responses ->
  Forall (fun batch => batchEmbedContents (embeddingRequests batch) <> None) batches.
Proof using Type.
  induction 1 as [| batch es batches responses Hcall _ IH]; constructor; trivial.
  congruence.
Qed.

Lemma zip_with_batches (batches : list (list jsstring)) (responses : list (list (list Q))) :
  Forall2 (fun batch embeddings => length embeddings = length batch) batches responses ->
  zip_with mkChunk (concat batches) (concat responses)
  = concat (zip_with (zip_with mkChunk) batches responses).
Proof using Type.
  induction 1 as [| batch es batches responses Hlen _ IH]; simpl; [reflexivity |].
  rewrite zip_with_app by congruence. now rewrite IH.
Qed.

(** A build that reaches its store. *)
Lemma buildStore_ok (dataText : jsstring) (fuel : nat) (store : list Chunk)
    (sent : list (list EmbedRequest)) :
  (length dataText < fuel)%nat ->
  buildStore uniLNPZs batchEmbedContents fuel (Some dataText) = Some (Ok store, sent) ->
  exists chunks batches responses,
    chunkText fuel dataText defaultChunkSize = Some chunks
    /\ Forall (fun c => strlen c <= defaultChunkSize) chunks
    /\ Z.of_nat (length chunks) = (strlen dataText + defaultChunkSize - 1) / defaultChunkSize
    /\ nonEmptyChunksOf uniLNPZs chunks <> []
    /\ concat batches = nonEmptyChunksOf uniLNPZs chunks
    /\ Forall batchSized batches
    /\ sent = map embeddingRequests batches
    /\ batchesAnswered batchEmbedContents batches responses
    /\ (length (nonEmptyChunksOf uniLNPZs chunks) <= length (concat responses))%nat
    /\ store = zip_with mkChunk (nonEmptyChunksOf uniLNPZs chunks) (concat responses).
Proof using Type.
  intros Hfuel Hbuild.
  destruct (buildStore_run dataText fuel Hfuel)
    as (chunks & Hchunks & _ & Hlen & _ & Hceil
        & [[_ Hrun] | (Hne & r & batches & rest & Hrun & Hcut & Hsized & Hout & Hdone)]);
    rewrite Hrun in Hbuild; [discriminate |].
  destruct r as [allEmbeddings |]; [| discriminate].
  injection Hbuild as Hpair <-. destruct Hout as (responses & Hans & ->).
  rewrite (Hdone _ eq_refl), app_nil_r in Hcut.
  apply pairChunks_ok in Hpair as [-> Hshort]. simpl in Hshort |- *.
  exists chunks, batches, responses. repeat split; auto.
Qed.


(** X15: the batches sent are the non-empty sanitized chunks, in order, cut
    into pieces of 1 to 99 chunks, each request tagged as a document; all of
    them are sent when the store is reached; no batch is sent after a
    rejected one; and a rejected batch ends the build with status 1. *)
Theorem build_batches (dataText : jsstring) (fuel : nat) :
  (length dataText < fuel)%nat ->
  exists chunks out batches rest,
    chunkText fuel dataText defaultChunkSize = Some chunks
    /\ processPdf uniLNPZs batchEmbedContents fuel (Some dataText)
       = Some (out, map (map (fun chunk => (chunk, RETRIEVAL_DOCUMENT))) batches)
    /\ nonEmptyChunksOf uniLNPZs chunks = concat batches ++ rest
    /\ Forall (fun batch => batch <> [] /\ (length batch <= 99)%nat) batches
    /\ (forall store, out = StoreReady store -> rest = [])
    /\ (forall before batch after,
          batches = before ++ batch :: after -> after <> [] ->
          batchEmbedContents (embeddingRequests batch) <> None)
    /\ (forall batch,
          In batch batches -> batchEmbedContents (embeddingRequests batch) = None ->
          out = BuildExit 1).
Proof using Type.
  intros Hfuel.
  destruct (buildStore_run dataText fuel Hfuel)
    as (chunks & Hchunks & _ & _ & _ & _
        & [[Hnone Hrun] | (Hne & r & batches & rest & Hrun & Hcut & Hsized & Hout & Hdone)]).
  - exists chunks, (BuildExit 1), [], []. unfold processPdf. rewrite Hrun, Hnone.
    repeat split; trivial; try constructor.
    all: try (intros before batch after H; now destruct before).
    all: try (intros batch []).
  - assert (Hsizes : Forall (fun batch => batch <> [] /\ (length batch <= 99)%nat) batches).
    { eapply Forall_impl; [exact Hsized |]. intros batch [Hb Hl].
      split; [exact Hb | unfold BATCH_SIZE in Hl; lia]. }
    unfold processPdf. rewrite Hrun. destruct r as [allEmbeddings |].
    + destruct Hout as (responses & Hans & ->).
      pose proof (answered_each _ _ Hans) as Heach.
      rewrite List.Forall_forall in Heach.
      exists chunks,
        (match pairChunks (nonEmptyChunksOf uniLNPZs chunks) 0 ([] ++ concat responses) with
         | Ok store => StoreReady store
         | Thrown => BuildExit 1
         end), batches, rest.
      repeat split; trivial.
      * now destruct (pairChunks _ _ _).
      * intros store _. now apply (Hdone _ eq_refl).
      * intros before batch after -> _. apply Heach, in_or_app. right. now left.
      * intros batch Hin Hcall. now apply Heach in Hin.
    + destruct Hout as (before' & last & -> & Hlast & Hbefore).
      rewrite List.Forall_forall in Hbefore.
      exists chunks, (BuildExit 1), (before' ++ [last]), rest.
      repeat split; trivial.
      * discriminate.
      * intros before batch after Hsplit Hafter. apply Hbefore.
        destruct (exists_last Hafter) as (after' & x & ->).
        change (before ++ batch :: after' ++ [x])
          with (before ++ (batch :: after') ++ [x]) in Hsplit.
        rewrite app_assoc in Hsplit. apply app_inj_tail in Hsplit as [-> _].
        apply in_or_app. right. now left.
Qed.

(** X16: a store that is reached has one chunk for each non-empty sanitized
    chunk of the document, with those texts in order, and its vectors are
    the leading ones of the responses put end to end; when every response
    has one vector for each request, each chunk has the vector at its place
    in the response to its batch. *)
Theorem build_store_content (dataText : jsstring) (fuel : nat) (store : list Chunk)
    (sent : list (list EmbedRequest)) :
  (length dataText < fuel)%nat ->
  processPdf uniLNPZs batchEmbedContents fuel (Some dataText) = Some (StoreReady store, sent) ->
  exists chunks batches responses,
    chunkText fuel dataText defaultChunkSize = Some chunks
    /\ sent = map embeddingRequests batches
    /\ batchesAnswered batchEmbedContents batches responses
    /\ concat batches = nonEmptyChunksOf uniLNPZs chunks
    /\ map text store = nonEmptyChunksOf uniLNPZs chunks
    /\ map embedding store = firstn (length store) (concat responses)
    /\ (Forall2 (fun batch embeddings => length embeddings = length batch)
                batches responses ->
        store = concat (zip_with (zip_with mkChunk) batches responses)).
Proof using Type.
  intros Hfuel Hrun. unfold processPdf in Hrun.
  destruct (buildStore uniLNPZs batchEmbedContents fuel (Some dataText))
    as [[[store' |] sent'] |] eqn:Hbuild; try discriminate.
  injection Hrun as <- <-.
  apply (buildStore_ok _ _ _ _ Hfuel) in Hbuild
    as (chunks & batches & responses & Hchunks & _ & _ & _ & Hcat & _ & -> & Hans
        & Hshort & ->).
  destruct (zip_with_texts _ _ Hshort) as [Htexts Hvectors].
  exists chunks, batches, responses. repeat split; trivial.
  - rewrite Hvectors. f_equal. rewrite <- Htexts at 1. now rewrite length_map.
  - intros Hcounts. rewrite <- Hcat. now apply zip_with_batches.
Qed.

(** X17: a store that is reached is not empty and has no more chunks than
    the document has pieces of 1500 code units; the text of each chunk is not
    empty, has 1500 code units at most, and has no white space at either
    end. *)
Theorem build_store_invariants (dataText : jsstring) (fuel : nat) (store : list Chunk)
    (sent : list (list EmbedRequest)) :
  (length dataText < fuel)%nat ->
  processPdf uniLNPZs batchEmbedContents fuel (Some dataText) = Some (StoreReady store, sent) ->
  store <> []
  /\ Z.of_nat (length store) <= (strlen dataText + 1499) / 1500
  /\ Forall (fun chunk => text chunk <> [] /\ strlen (text chunk) <= 1500
                          /\ trim (text chunk) = text chunk) store.
Proof using Type.
  intros Hfuel Hrun. unfold processPdf in Hrun.
  destruct (buildStore uniLNPZs batchEmbedContents fuel (Some dataText))
    as [[[store' |] sent'] |] eqn:Hbuild; try discriminate.
  injection Hrun as <- <-.
  apply (buildStore_ok _ _ _ _ Hfuel) in Hbuild
    as (chunks & batches & responses & _ & Hlen & Hceil & Hne & _ & _ & _ & _
        & Hshort & ->).
  destruct (zip_with_texts _ _ Hshort) as [Htexts _].
  set (store := zip_with mkChunk (nonEmptyChunksOf uniLNPZs chunks) (concat responses)) in *.
  assert (Hcount : length store = length (nonEmptyChunksOf uniLNPZs chunks))
    by (rewrite <- Htexts; now rewrite length_map).
  split; [| split].
  - intros Hnil. rewrite Hnil in Htexts. simpl in Htexts. congruence.
  - pose proof (nonEmptyChunksOf_length chunks). unfold defaultChunkSize in Hceil.
    replace (strlen dataText + 1499) with (strlen dataText + 1500 - 1) by lia. lia.
  - apply List.Forall_forall. intros chunk Hin.
    assert (Ht : In (text chunk) (nonEmptyChunksOf uniLNPZs chunks))
      by (rewrite <- Htexts; now apply in_map).
    unfold nonEmptyChunksOf in Ht. apply List.filter_In in Ht as [Hfrom Hpos].
    apply in_map_iff in Hfrom as (c & Hc & Hin').
    rewrite List.Forall_forall in Hlen. specialize (Hlen c Hin').
    apply Z.ltb_lt in Hpos. unfold defaultChunkSize in Hlen.
    repeat split.
    + intros Hnil. rewrite Hnil in Hpos. unfold strlen in Hpos. simpl in Hpos. lia.
    + rewrite <- Hc. pose proof (sanitizeText_length uniLNPZs c). unfold strlen in *. lia.
    + rewrite <- Hc. unfold sanitizeText. apply trim_idempotent.
Qed.

(** X18: what [createEmbeddingsFile] writes, [loadEmbeddings] accepts: the
    array written is a well-formed non-empty store, the load path keeps it,
    and its typed reading is the store [processPdf] reaches on the same
    document. *)
Theorem build_then_load (dataText : jsstring) (fuel : nat) (content : value)
    (sent : list (list EmbedRequest)) :
  (length dataText < fuel)%nat ->
  createEmbeddingsFile uniLNPZs batchEmbedContents writeFile fuel (Some dataText)
    = Some (FileWritten content, sent) ->
  loadEmbeddings (Parsed content) = Listening content
  /\ wellFormedStore content = true
  /\ exists store,
       storeOfValue content = Some store
       /\ processPdf uniLNPZs batchEmbedContents fuel (Some dataText)
          = Some (StoreReady store, sent).
Proof using Type.
  intros Hfuel Hrun. unfold createEmbeddingsFile, processPdf in *.
  destruct (buildStore uniLNPZs batchEmbedContents fuel (Some dataText))
    as [[[store |] sent'] |] eqn:Hbuild; try discriminate.
  cbv zeta in Hrun. destruct (writeFile _); [| discriminate].
  injection Hrun as <- <-.
  apply (buildStore_ok _ _ _ _ Hfuel) in Hbuild
    as (chunks & batches & responses & _ & _ & _ & Hne & _ & _ & _ & _ & Hshort & Hstore).
  destruct (zip_with_texts _ _ Hshort) as [Htexts _]. rewrite <- Hstore in Htexts.
  destruct store as [| c store]; [simpl in Htexts; congruence |].
  split; [reflexivity |]. split.
  - unfold wellFormedStore. now rewrite storeOfValue_written.
  - exists (c :: store). split; [apply storeOfValue_written | reflexivity].
Qed.
Lemma answered_short (batches : list (list jsstring)) (responses : list (list (list Q))) :
  (forall requests embeddings,
     batchEmbedContents requests = Some embeddings -> requests <> [] ->
     (length embeddings < length requests)%nat) ->
  Forall batchSized batches ->
  batchesAnswered batchEmbedContents batches responses ->
  batches <> [] ->
  (length (concat responses) < length (concat batches))%nat.
Proof using Type.
  intros Hfew Hsized Hans. induction Hans as [| batch es batches responses Hcall Hans IH];
    intros Hne; [congruence |].
  inversion Hsized as [| b bs [Hb _] Hrest]; subst.
  simpl. rewrite !length_app.
  assert (Hes : (length es < length batch)%nat).
  { pose proof (Hfew _ _ Hcall) as H. unfold embeddingRequests in H.
    rewrite length_map in H. apply H. now destruct batch. }
  destruct batches as [| b' bs'].
  - inversion Hans; subst. simpl. lia.
  - specialize (IH Hrest ltac:(discriminate)). lia.
Qed.

(** X19: when the embedding service answers with fewer vectors than it was
    sent requests, the build does not reach a store: no chunk is stored
    without a vector. *)
Theorem build_too_few_vectors (dataText : jsstring) (fuel : nat) :
  (forall requests embeddings,
     batchEmbedContents requests = Some embeddings -> requests <> [] ->
     (length embeddings < length requests)%nat) ->
  (length dataText < fuel)%nat ->
  exists sent,
    processPdf uniLNPZs batchEmbedContents fuel (Some dataText) = Some (BuildExit 1, sent)
    /\ createEmbeddingsFile uniLNPZs batchEmbedContents writeFile fuel (Some dataText)
       = Some (BuildExit 1, sent).
Proof using Type.
  intros Hfew Hfuel. unfold processPdf, createEmbeddingsFile.
  destruct (buildStore uniLNPZs batchEmbedContents fuel (Some dataText))
    as [[[store |] sent] |] eqn:Hbuild.
  - exfalso.
    apply (buildStore_ok _ _ _ _ Hfuel) in Hbuild
      as (chunks & batches & responses & _ & _ & _ & Hne & Hcat & Hsized & _ & Hans
          & Hshort & _).
    assert (Hbatches : batches <> []) by (intros ->; simpl in Hcat; congruence).
    pose proof (answered_short batches responses Hfew Hsized Hans Hbatches) as Hless.
    rewrite Hcat in Hless. lia.
  - now exists sent.
  - exfalso. destruct (buildStore_run dataText fuel Hfuel)
      as (chunks & _ & _ & _ & _ & _ & [[_ Hrun] | (_ & r & b & rest & Hrun & _)]);
      rewrite Hrun in Hbuild; discriminate.
Qed.
End BuildFacts.

(** ** The further scenarios, run *)

Lemma chat_other_sessions_witness :
  sessionCache (snd (sampleHandler sampleRequest emptyWorld)) !! jstr "s2"
  = sessionCache emptyWorld !! jstr "s2".
Proof.
  apply (chat_other_sessions printNothing dot sampleEmbed sampleGenerate stringKeysOnly
           sampleStore sampleRequest emptyWorld (jstr "s2")).
  discriminate.
Defined.

Lemma chat_reply_not_blank_witness :
  exists finalText,
    body (fst (sampleHandler sampleRequest emptyWorld))
    = VObj [(jstr "response", VStr finalText)]
    /\ trim finalText <> [].
Proof.
  apply (proj2 (chat_reply_not_blank printNothing dot sampleEmbed sampleGenerate
                  stringKeysOnly sampleStore sampleRequest emptyWorld)).
  reflexivity.
Defined.

Lemma chat_call_order_witness :
  calls (snd (sampleHandler sampleRequest emptyWorld))
  = calls emptyWorld
    ++ [CallEmbed (combinedQuery printNothing (jstr "what is duty?") []) RETRIEVAL_QUERY;
        CallGenerate [] generationConfig
          (fullPrompt
             (joinStrings separator
                [jstr "duty without attachment"; jstr "the nature of the self"])
             (jstr "what is duty?"))].
Proof.
  apply (proj2 (proj2 (proj2 (chat_call_order printNothing dot sampleEmbed sampleGenerate
                                stringKeysOnly sampleStore sampleRequest emptyWorld)
                         (jstr "s1") eq_refl eq_refl eq_refl eq_refl))).
  - discriminate.
  - reflexivity.
Defined.

Lemma emptyWorld_exchanges : cacheOfExchanges emptyWorld.
Proof. intros sid history H. simpl in H. now rewrite lookup_empty in H. Qed.

Lemma chat_keeps_exchanges_witness :
  cacheOfExchanges (snd (sampleHandler nextRequest (snd (sampleHandler sampleRequest emptyWorld)))).
Proof.
  apply (chat_keeps_exchanges printNothing dot sampleEmbed sampleGenerate stringKeysOnly
           sampleStore nextRequest (snd (sampleHandler sampleRequest emptyWorld))).
  apply (chat_keeps_exchanges printNothing dot sampleEmbed sampleGenerate stringKeysOnly
           sampleStore sampleRequest emptyWorld emptyWorld_exchanges).
Defined.


Lemma build_batches_witness :
  exists chunks out batches rest,
    chunkText 60 sampleDocument defaultChunkSize = Some chunks
    /\ processPdf basicLatin sampleBatchService 60 (Some sampleDocument)
       = Some (out, map (map (fun chunk => (chunk, RETRIEVAL_DOCUMENT))) batches)
    /\ nonEmptyChunksOf basicLatin chunks = concat batches ++ rest
    /\ Forall (fun batch => batch <> [] /\ (length batch <= 99)%nat) batches
    /\ (forall store, out = StoreReady store -> rest = [])
    /\ (forall before batch after,
          batches = before ++ batch :: after -> after <> [] ->
          sampleBatchService (embeddingRequests batch) <> None)
    /\ (forall batch,
          In batch batches -> sampleBatchService (embeddingRequests batch) = None ->
          out = BuildExit 1).
Proof.
  apply (build_batches basicLatin sampleBatchService 
           sampleDocument 60).
  simpl. lia.
Defined.

Lemma sample_build :
  processPdf basicLatin sampleBatchService 60 (Some sampleDocument)
  = Some (StoreReady [mkChunk sampleText unitX],
          [[(sampleText, RETRIEVAL_DOCUMENT)]]).
Proof. vm_compute. reflexivity. Qed.

Lemma build_store_content_witness :
  exists chunks batches responses,
    chunkText 60 sampleDocument defaultChunkSize = Some chunks
    /\ [[(sampleText, RETRIEVAL_DOCUMENT)]] = map embeddingRequests batches
    /\ batchesAnswered sampleBatchService batches responses
    /\ concat batches = nonEmptyChunksOf basicLatin chunks
    /\ map text [mkChunk sampleText unitX] = nonEmptyChunksOf basicLatin chunks
    /\ map embedding [mkChunk sampleText unitX]
       = firstn (length [mkChunk sampleText unitX]) (concat responses)
    /\ (Forall2 (fun batch embeddings => length embeddings = length batch)
                batches responses ->
        [mkChunk sampleText unitX] = concat (zip_with (zip_with mkChunk) batches responses)).
Proof.
  apply (build_store_content basicLatin sampleBatchService sampleDocument 60
           [mkChunk sampleText unitX] [[(sampleText, RETRIEVAL_DOCUMENT)]]).
  - simpl. lia.
  - exact sample_build.
Defined.

Lemma build_store_invariants_witness :
  [mkChunk sampleText unitX] <> []
  /\ Z.of_nat (length [mkChunk sampleText unitX]) <= (strlen sampleDocument + 1499) / 1500
  /\ Forall (fun chunk => text chunk <> [] /\ strlen (text chunk) <= 1500
                          /\ trim (text chunk) = text chunk) [mkChunk sampleText unitX].
Proof.
  apply (build_store_invariants basicLatin sampleBatchService sampleDocument 60
           [mkChunk sampleText unitX] [[(sampleText, RETRIEVAL_DOCUMENT)]]).
  - simpl. lia.
  - exact sample_build.
Defined.

Lemma build_then_load_witness :
  loadEmbeddings (Parsed (VArr [valueOfChunk (mkChunk sampleText unitX)]))
  = Listening (VArr [valueOfChunk (mkChunk sampleText unitX)])
  /\ wellFormedStore (VArr [valueOfChunk (mkChunk sampleText unitX)]) = true
  /\ exists store,
       storeOfValue (VArr [valueOfChunk (mkChunk sampleText unitX)]) = Some store
       /\ processPdf basicLatin sampleBatchService 60 (Some sampleDocument)
          = Some (StoreReady store, [[(sampleText, RETRIEVAL_DOCUMENT)]]).
Proof.
  apply (build_then_load basicLatin sampleBatchService sampleWrite sampleDocument 60
           (VArr [valueOfChunk (mkChunk sampleText unitX)])
           [[(sampleText, RETRIEVAL_DOCUMENT)]]).
  - simpl. lia.
  - vm_compute. reflexivity.
Defined.

Lemma build_too_few_vectors_witness :
  exists sent,
    processPdf basicLatin (fun _ => Some []) 60 (Some sampleDocument)
    = Some (BuildExit 1, sent)
    /\ createEmbeddingsFile basicLatin (fun _ => Some []) sampleWrite 60 (Some sampleDocument)
       = Some (BuildExit 1, sent).
Proof.
  apply (build_too_few_vectors basicLatin (fun _ => Some []) sampleWrite sampleDocument 60).
  - intros requests embeddings [= <-] Hne. destruct requests; [congruence | simpl; lia].
  - simpl. lia.
Defined.

(** ** The reach of the history *)

Lemma arraySliceFrom_last {A : Type} (older recent : list A) :
  length recent = 4%nat -> arraySliceFrom (older ++ recent) (-4) = recent.
Proof.
  intros Hlen. unfold arraySliceFrom, relativeIndex.
  change (-4 <? 0) with true. cbv iota. rewrite length_app, Hlen.
  assert (E : Z.to_nat (Z.max (Z.of_nat (length older + 4) + -4) 0) = length older) by lia.
  rewrite E. clear. induction older as [| x older IH]; [reflexivity | exact IH].
Qed.

(** X20: only the last four entries of the history reach the combined query:
    entries before them change nothing. *)
Theorem combinedQuery_last_four (numberToString : number -> jsstring) (query : jsstring)
    (older recent : list value) :
  length recent = 4%nat ->
  combinedQuery numberToString query (older ++ recent)
  = combinedQuery numberToString query recent.
Proof.
  intros Hlen. unfold combinedQuery, recentHistoryText.
  rewrite (arraySliceFrom_last older recent Hlen).
  pose proof (arraySliceFrom_last [] recent Hlen) as Hself. simpl in Hself.
  now rewrite Hself.
Qed.

Lemma combinedQuery_last_four_witness :
  combinedQuery printNothing (jstr "q")
    ([VObj [(jstr "parts", VObj [(jstr "text", VStr (jstr "zero"))])]]
       ++ [VObj [(jstr "parts", VObj [(jstr "text", VStr (jstr "one"))])];
           VNull; userTurn (jstr "three");
           VObj [(jstr "parts", VObj [(jstr "text", VStr (jstr "four"))])]])
  = combinedQuery printNothing (jstr "q")
      [VObj [(jstr "parts", VObj [(jstr "text", VStr (jstr "one"))])];
       VNull; userTurn (jstr "three");
       VObj [(jstr "parts", VObj [(jstr "text", VStr (jstr "four"))])]].
Proof.
  apply (combinedQuery_last_four printNothing (jstr "q")). reflexivity.
Defined.
